(** * DadTube / GrailTube: the adaptive time-window search

    A shallow embedding of the two modules held by
    [src/hooks/useYouTubeSearch.ts]: the search hook [useYouTubeSearch], and
    the module it imports as [@/lib/youtube] (the upstream client, its two
    caches and the API usage counters); of the page [Home] that calls the
    hook; and of the route [/api/saved-videos]. The properties the
    specification states about the search come first, further properties of
    the code after them.

    Conventions of the embedding.
    - A JavaScript [number] that holds a time or a duration is an exact
      rational ([Qc], canonical fractions, so that [=] is the equality of
      numbers); counters and lengths are [nat]; a view count is an integer or
      [NaN], the two things [parseInt] gives.
    - [Record<string, V>] used as a map is a [gmap]. A plain object is that
      map under the keys that name no member of [Object.prototype]; the
      properties of the detail cache that read it under arbitrary ids are
      stated for such ids ([ordinary]).
    - A function that can [throw] or [await] a rejected promise lives in the
      monad [Js]: a state transformer with a [Normal]/[Thrown] completion.
    - The asynchronous self-recursion of the hook is a tail call; a step
      returns the call it is about to make and [run] iterates it with fuel.
    - The client and the hook are first written for windows whose dates
      [toISOString()] can print; the module [Dated] has them with the
      [RangeError] that [toISOString()] throws on a date out of the range
      of [Date], and the properties of the way a session ends are about
      the functions of [Dated]. *)

From Stdlib Require Import ZArith QArith Qcanon Qround Lia.
From stdpp Require Import base option list strings pretty gmap.

Local Open Scope nat_scope.

(** ** JavaScript numbers *)

Module Num.

(** [Math.max] on two numbers. *)
Definition max (a b : Qc) : Qc :=
  match (a ?= b)%Qc with
  | Lt => b
  | _ => a
  end.

(** [Math.round]: the nearest integer, halves going up. *)
Definition round (q : Qc) : Z := Qfloor (q + 1 / 2)%Qc.

Definition half (d : Qc) : Qc := (d / 2)%Qc.

End Num.

(** ** Types ([@/types]) *)

Record TimeWindow := {
  startDate : Qc;        (* an instant, in minutes *)
  endDate : Qc;
  durationMinutes : Qc
}.

(** What [parseInt(s, 10)] returns. *)
Inductive ViewCount :=
| Views (n : Z)
| NaN.

Record Video := {
  id : string;
  title : string;
  description : string;
  thumbnailUrl : string;
  publishedAt : string;
  viewCount : ViewCount;
  channelTitle : string
}.

(** ** Constants ([@/lib/constants])

    The module of constants is not part of the sources at hand; its values
    are a parameter of everything below, under the names the code imports.
    [INITIAL_WINDOW_MINUTES] stands for the "fixed small initial duration"
    that [createInitialTimeWindow] uses. *)

Record Constants := {
  RARE_VIEW_THRESHOLD : Z;
  AGGRESSIVE_EXPANSION_FACTOR : Qc;
  MODERATE_EXPANSION_FACTOR : Qc;
  CONTRACTION_FACTOR : Qc;
  MIN_WINDOW_DURATION_MINUTES : Qc;
  BUSY_PERIOD_THRESHOLD : Z;
  MODERATE_PERIOD_THRESHOLD : Z;
  INITIAL_WINDOW_MINUTES : Qc
}.

(** ** Window helpers ([@/lib/utils]) *)

(** Modelled from the spec: [createTimeWindow] of [lib/utils] is missing from
    the sources; "window of [center - duration/2, center + duration/2]". *)
Definition createTimeWindow (centerTime : Qc) (durationMinutes : Qc) : TimeWindow :=
  {| startDate := (centerTime - Num.half durationMinutes)%Qc;
     endDate := (centerTime + Num.half durationMinutes)%Qc;
     durationMinutes := durationMinutes |}.

(** Modelled from the spec: [getWindowCenter] of [lib/utils] is missing from
    the sources; "windowCenter(w) -> instant: midpoint". *)
Definition getWindowCenter (window : TimeWindow) : Qc :=
  ((startDate window + endDate window) / 2)%Qc.

(** Modelled from the spec: [createInitialTimeWindow] of [lib/utils] is
    missing from the sources; "a window of a fixed small initial duration (a
    configured constant) centered on center". *)
Definition createInitialTimeWindow (K : Constants) (center : Qc) : TimeWindow :=
  createTimeWindow center (INITIAL_WINDOW_MINUTES K).

(** ** Effects: state, [throw] and [try]/[catch] *)

Inductive Completion (A : Type) :=
| Normal (a : A)
| Thrown.
Arguments Normal {A} a.
Arguments Thrown {A}.

Definition Js (S A : Type) : Type := S -> Completion A * S.

Module Js.

Definition ret {S A} (a : A) : Js S A := fun s => (Normal a, s).

Definition bind {S A B} (c : Js S A) (k : A -> Js S B) : Js S B :=
  fun s =>
    match c s with
    | (Normal a, s') => k a s'
    | (Thrown, s') => (Thrown, s')
    end.

Definition throw {S A} : Js S A := fun s => (Thrown, s).

(** [try { body } catch (e) { handler }]: the state keeps what [body] did
    before it threw. *)
Definition try_catch {S A} (body handler : Js S A) : Js S A :=
  fun s =>
    match body s with
    | (Normal a, s') => (Normal a, s')
    | (Thrown, s') => handler s'
    end.

Definition gets {S A} (f : S -> A) : Js S A := fun s => (Normal (f s), s).

Definition modify {S} (f : S -> S) : Js S unit := fun s => (Normal tt, f s).

(** [Promise.all(xs.map(async x => ...))]. Every callback runs at once up
    to its first [await], in the order of the array, so the effects of all
    of them take place whatever the others do; the joined promise rejects
    as soon as one of them does. *)
Fixpoint Promise_all {S A} (ps : list (Js S A)) : Js S (list A) :=
  match ps with
  | [] => ret []
  | p :: rest =>
      fun s =>
        let '(r, s1) := p s in
        let '(rs, s2) := Promise_all rest s1 in
        (match r, rs with
         | Normal a, Normal l => Normal (a :: l)
         | _, _ => Thrown
         end, s2)
  end.

(** [xs.forEach(x => ...)] with a callback that does not throw. *)
Definition forEach {S A} (xs : list A) (f : A -> S -> S) : Js S unit :=
  modify (fun s => foldl (fun s x => f x s) s xs).

End Js.

Declare Scope js_scope.
Delimit Scope js_scope with js.
Notation "x <- c ;; k" := (Js.bind c (fun x => k))
  (at level 100, c at next level, right associativity) : js_scope.
Notation "c ;; k" := (Js.bind c (fun _ => k))
  (at level 100, right associativity) : js_scope.

(** ** The upstream client ([@/lib/youtube]) *)

Definition MAX_RESULTS_PER_REQUEST : nat := 50.
Definition MAX_IDS_PER_REQUEST : nat := 50.

(** A request handed to [axios.get]. *)
Inductive Request :=
| GetSearch (maxResults : nat) (publishedAfter publishedBefore : Qc)
| GetVideos (ids : list string).

(** The YouTube Data API as the client sees it. [None] is a rejected request.
    A search answers with the [videoId] of each item; a detail request with
    its items, each already read into the fields of a [Video] (the view count
    as [parseInt] reads it). *)
Record Upstream := {
  search_list : Qc -> Qc -> option (list string);
  videos_list : list string -> option (list Video)
}.

Record ApiStats := {
  searchApiCalls : nat;
  videoDetailApiCalls : nat;
  totalApiCalls : nat;
  cachedSearches : nat;
  cachedVideoDetails : nat
}.

(** The module state of [youtube.ts]: [videoCache], [searchCache] and
    [apiStats]. [sent] is not a variable of the program: it records, oldest
    first, the requests that reached [axios.get]. The search cache key
    [`${start.toISOString()}_${end.toISOString()}`] is the pair of instants
    it prints. *)
Record Youtube := {
  videoCache : gmap string Video;
  searchCache : gmap (Qc * Qc) (list string);
  apiStats : ApiStats;
  sent : list Request
}.

Definition with_apiStats (f : ApiStats -> ApiStats) (m : Youtube) : Youtube :=
  {| videoCache := videoCache m; searchCache := searchCache m;
     apiStats := f (apiStats m); sent := sent m |}.

Definition with_videoCache (f : gmap string Video -> gmap string Video)
    (m : Youtube) : Youtube :=
  {| videoCache := f (videoCache m); searchCache := searchCache m;
     apiStats := apiStats m; sent := sent m |}.

Definition with_searchCache
    (f : gmap (Qc * Qc) (list string) -> gmap (Qc * Qc) (list string))
    (m : Youtube) : Youtube :=
  {| videoCache := videoCache m; searchCache := f (searchCache m);
     apiStats := apiStats m; sent := sent m |}.

Definition send (r : Request) (m : Youtube) : Youtube :=
  {| videoCache := videoCache m; searchCache := searchCache m;
     apiStats := apiStats m; sent := sent m ++ [r] |}.

(** [apiStats.searchApiCalls++] and its siblings. *)
Definition incr_searchApiCalls (a : ApiStats) : ApiStats :=
  {| searchApiCalls := S (searchApiCalls a);
     videoDetailApiCalls := videoDetailApiCalls a;
     totalApiCalls := totalApiCalls a;
     cachedSearches := cachedSearches a;
     cachedVideoDetails := cachedVideoDetails a |}.

Definition incr_videoDetailApiCalls (a : ApiStats) : ApiStats :=
  {| searchApiCalls := searchApiCalls a;
     videoDetailApiCalls := S (videoDetailApiCalls a);
     totalApiCalls := totalApiCalls a;
     cachedSearches := cachedSearches a;
     cachedVideoDetails := cachedVideoDetails a |}.

Definition incr_totalApiCalls (a : ApiStats) : ApiStats :=
  {| searchApiCalls := searchApiCalls a;
     videoDetailApiCalls := videoDetailApiCalls a;
     totalApiCalls := S (totalApiCalls a);
     cachedSearches := cachedSearches a;
     cachedVideoDetails := cachedVideoDetails a |}.

Definition incr_cachedSearches (a : ApiStats) : ApiStats :=
  {| searchApiCalls := searchApiCalls a;
     videoDetailApiCalls := videoDetailApiCalls a;
     totalApiCalls := totalApiCalls a;
     cachedSearches := S (cachedSearches a);
     cachedVideoDetails := cachedVideoDetails a |}.

Definition add_cachedVideoDetails (n : nat) (a : ApiStats) : ApiStats :=
  {| searchApiCalls := searchApiCalls a;
     videoDetailApiCalls := videoDetailApiCalls a;
     totalApiCalls := totalApiCalls a;
     cachedSearches := cachedSearches a;
     cachedVideoDetails := cachedVideoDetails a + n |}.

(** [apiStats.reset()]. *)
Definition reset (_ : ApiStats) : ApiStats :=
  {| searchApiCalls := 0;
     videoDetailApiCalls := 0;
     totalApiCalls := 0;
     cachedSearches := 0;
     cachedVideoDetails := 0 |}.

(** [await axios.get(`${YOUTUBE_API_URL}/search`, ...)] followed by the
    reading of [response.data.items]: the request goes out, and the answer
    comes back or the promise is rejected. *)
Definition axios_get_search (up : Upstream) (window : TimeWindow)
    : Js Youtube (list string) :=
  (Js.modify (send (GetSearch MAX_RESULTS_PER_REQUEST
                      (startDate window) (endDate window))) ;;
   match search_list up (startDate window) (endDate window) with
   | Some videoIds => Js.ret videoIds
   | None => Js.throw
   end)%js.

(** [await axios.get(`${YOUTUBE_API_URL}/videos`, ...)] and
    [response.data.items || []]. *)
Definition axios_get_videos (up : Upstream) (batchIds : list string)
    : Js Youtube (list Video) :=
  (Js.modify (send (GetVideos batchIds)) ;;
   match videos_list up batchIds with
   | Some items => Js.ret items
   | None => Js.throw
   end)%js.

Section Client.

Context (K : Constants) (up : Upstream).

Local Open Scope js_scope.

Definition expandTimeWindow (window : TimeWindow) (factor : option Qc)
    : TimeWindow :=
  let factor := default (AGGRESSIVE_EXPANSION_FACTOR K) factor in
  let centerTime := getWindowCenter window in
  let newDuration := (durationMinutes window * factor)%Qc in
  createTimeWindow centerTime newDuration.

Definition getSearchCacheKey (window : TimeWindow) : Qc * Qc :=
  (startDate window, endDate window).

Definition searchVideosInTimeWindow (window : TimeWindow)
    : Js Youtube (list string) :=
  let cacheKey := getSearchCacheKey window in
  cached <- Js.gets (fun m => searchCache m !! cacheKey) ;;
  match cached with
  | Some ids =>
      Js.modify (with_apiStats incr_cachedSearches) ;;
      Js.ret ids
  | None =>
      Js.try_catch
        (Js.modify (with_apiStats incr_searchApiCalls) ;;
         Js.modify (with_apiStats incr_totalApiCalls) ;;
         videoIds <- axios_get_search up window ;;
         Js.modify (with_searchCache <[cacheKey := videoIds]>) ;;
         Js.ret videoIds)
        (Js.ret [])
  end.

(** [xs.slice(i, j)] for [i <= j]. *)
Definition slice {A} (i j : nat) (xs : list A) : list A :=
  take (j - i) (drop i xs).

(** The [for (let i = 0; i < uncachedIds.length; i += MAX_IDS_PER_REQUEST)]
    loop; [n] bounds the number of rounds. *)
Fixpoint batch_loop (n i : nat) (uncachedIds : list string)
    : list (list string) :=
  match n with
  | 0 => []
  | S n' =>
      if i <? length uncachedIds
      then slice i (i + MAX_IDS_PER_REQUEST) uncachedIds
             :: batch_loop n' (i + MAX_IDS_PER_REQUEST) uncachedIds
      else []
  end.

Definition make_batches (uncachedIds : list string) : list (list string) :=
  batch_loop (length uncachedIds) 0 uncachedIds.

(** [videoIds.map(id => videoCache[id]).filter(Boolean)]. *)
Definition from_cache (videoIds : list string) : Js Youtube (list Video) :=
  Js.gets (fun m => omap (fun id => videoCache m !! id) videoIds).

Definition getVideoDetails (videoIds : list string) : Js Youtube (list Video) :=
  if length videoIds =? 0 then Js.ret [] else
  cache <- Js.gets videoCache ;;
  let uncachedIds := filter (fun id => cache !! id = None) videoIds in
  if length uncachedIds =? 0 then
    Js.modify (with_apiStats (add_cachedVideoDetails (length videoIds))) ;;
    from_cache videoIds
  else
    let batches := make_batches uncachedIds in
    Js.try_catch
      (batchResults <-
         Js.Promise_all
           (map (fun batchIds =>
                   Js.modify (with_apiStats incr_videoDetailApiCalls) ;;
                   Js.modify (with_apiStats incr_totalApiCalls) ;;
                   axios_get_videos up batchIds)
                batches) ;;
       let allItems := concat batchResults in
       Js.forEach allItems
         (fun video => with_videoCache <[id video := video]>) ;;
       from_cache videoIds)
      (from_cache videoIds).

(** [NaN < n] is false. *)
Definition views_lt (v : ViewCount) (n : Z) : bool :=
  match v with
  | Views k => (k <? n)%Z
  | NaN => false
  end.

Definition filterRareVideos (videos : list Video) : list Video :=
  List.filter (fun video => views_lt (viewCount video) (RARE_VIEW_THRESHOLD K))
    videos.

End Client.

(** ** The search hook ([useYouTubeSearch]) *)

(** The status lines, by template and the values put in them. *)
Inductive Message :=
| Scanning (currentStep : nat) (durationMinutes : Qc)
| NoVideosFound (expansionFactor : Z) (newDurationMinutes : Qc)
| FoundAnalyzing (count : nat)
| FoundBusy (count : nat)
| FoundExpandingModerately (count : nat)
| FoundExpandingAggressively (count : nat).

(** The [useState] cells of the hook. *)
Record Hook := {
  isLoading : bool;
  videos : list Video;
  currentWindow : option TimeWindow;
  statusMessage : option Message;
  error : option string;
  expansionCount : nat
}.

(** One browser session: the hook and the module state it drives. *)
Record Session := {
  hook : Hook;
  youtube : Youtube
}.

Definition with_hook (f : Hook -> Hook) (s : Session) : Session :=
  {| hook := f (hook s); youtube := youtube s |}.

(** Runs a call into [youtube.ts] from the hook. *)
Definition call {A} (c : Js Youtube A) : Js Session A :=
  fun s =>
    let '(r, m) := c (youtube s) in
    (r, {| hook := hook s; youtube := m |}).

Definition setIsLoading (b : bool) : Js Session unit :=
  Js.modify (with_hook (fun h =>
    {| isLoading := b; videos := videos h; currentWindow := currentWindow h;
       statusMessage := statusMessage h; error := error h;
       expansionCount := expansionCount h |})).

Definition setVideos (vs : list Video) : Js Session unit :=
  Js.modify (with_hook (fun h =>
    {| isLoading := isLoading h; videos := vs; currentWindow := currentWindow h;
       statusMessage := statusMessage h; error := error h;
       expansionCount := expansionCount h |})).

Definition setCurrentWindow (w : option TimeWindow) : Js Session unit :=
  Js.modify (with_hook (fun h =>
    {| isLoading := isLoading h; videos := videos h; currentWindow := w;
       statusMessage := statusMessage h; error := error h;
       expansionCount := expansionCount h |})).

Definition setStatusMessage (msg : option Message) : Js Session unit :=
  Js.modify (with_hook (fun h =>
    {| isLoading := isLoading h; videos := videos h;
       currentWindow := currentWindow h;
       statusMessage := msg; error := error h;
       expansionCount := expansionCount h |})).

Definition setError (e : option string) : Js Session unit :=
  Js.modify (with_hook (fun h =>
    {| isLoading := isLoading h; videos := videos h;
       currentWindow := currentWindow h;
       statusMessage := statusMessage h; error := e;
       expansionCount := expansionCount h |})).

Definition setExpansionCount (n : nat) : Js Session unit :=
  Js.modify (with_hook (fun h =>
    {| isLoading := isLoading h; videos := videos h;
       currentWindow := currentWindow h;
       statusMessage := statusMessage h; error := error h;
       expansionCount := n |})).

(** [await delay(STATUS_MESSAGE_DELAY_MS)]: time passes, nothing else. *)
Definition delay : Js Session unit := Js.ret tt.

(** What a step ends with: the tail call
    [await searchWithExpansion(nextWindow, nextStep)], or a plain return. *)
Inductive Next :=
| Call_searchWithExpansion (timeWindow : TimeWindow) (currentStep : nat)
| Return.

Section Hook.

Context (K : Constants) (up : Upstream).

Local Open Scope js_scope.

Definition handleNextSearchStep (nextWindow : TimeWindow) (nextStep : nat)
    : Js Session Next :=
  setExpansionCount (nextStep - 1) ;;
  delay ;;
  setCurrentWindow (Some nextWindow) ;;
  Js.ret (Call_searchWithExpansion nextWindow nextStep).

Definition processAdaptiveSearch (videoIds : list string)
    (videoDetails : list Video) (timeWindow : TimeWindow) (currentStep : nat)
    : Js Session Next :=
  let centerTime := getWindowCenter timeWindow in
  let nextStep := currentStep + 1 in
  nextWindow <-
    (if (BUSY_PERIOD_THRESHOLD K <? Z.of_nat (length videoIds))%Z then
       setStatusMessage (Some (FoundBusy (length videoDetails))) ;;
       let newDuration :=
         Num.max (durationMinutes timeWindow * CONTRACTION_FACTOR K)%Qc
                 (MIN_WINDOW_DURATION_MINUTES K) in
       Js.ret (createTimeWindow centerTime newDuration)
     else if (MODERATE_PERIOD_THRESHOLD K <? Z.of_nat (length videoIds))%Z then
       setStatusMessage
         (Some (FoundExpandingModerately (length videoDetails))) ;;
       Js.ret (expandTimeWindow K timeWindow
                 (Some (MODERATE_EXPANSION_FACTOR K)))
     else
       setStatusMessage
         (Some (FoundExpandingAggressively (length videoDetails))) ;;
       Js.ret (expandTimeWindow K timeWindow None)) ;;
  handleNextSearchStep nextWindow nextStep.

(** One activation of [searchWithExpansion], up to its tail call. *)
Definition searchWithExpansion (timeWindow : TimeWindow) (currentStep : nat)
    : Js Session Next :=
  setStatusMessage
    (Some (Scanning currentStep (durationMinutes timeWindow))) ;;
  videoIds <- call (searchVideosInTimeWindow up timeWindow) ;;
  if length videoIds =? 0 then
    let nextStep := currentStep + 1 in
    let newWindow := expandTimeWindow K timeWindow None in
    let expansionFactor :=
      Num.round (durationMinutes newWindow / durationMinutes timeWindow)%Qc in
    setStatusMessage
      (Some (NoVideosFound expansionFactor (durationMinutes newWindow))) ;;
    handleNextSearchStep newWindow nextStep
  else
    setStatusMessage (Some (FoundAnalyzing (length videoIds))) ;;
    videoDetails <- call (getVideoDetails up videoIds) ;;
    let rareVideos := filterRareVideos K videoDetails in
    if length rareVideos =? 0 then
      processAdaptiveSearch videoIds videoDetails timeWindow currentStep
    else
      setVideos rareVideos ;;
      setStatusMessage None ;;
      setIsLoading false ;;
      Js.ret Return.

(** The chain of activations started by [searchWithExpansion(w, n)]; [None]
    when it is still going after [fuel] of them. *)
Fixpoint run (fuel : nat) (timeWindow : TimeWindow) (currentStep : nat)
    (s : Session) : option (Completion unit * Session) :=
  match fuel with
  | 0 => None
  | S fuel' =>
      match searchWithExpansion timeWindow currentStep s with
      | (Normal (Call_searchWithExpansion w n), s') => run fuel' w n s'
      | (Normal Return, s') => Some (Normal tt, s')
      | (Thrown, s') => Some (Thrown, s')
      end
  end.

(** The statements of [startSearch] before its [try]. *)
Definition startSearch_reset : Js Session unit :=
  setIsLoading true ;;
  setError None ;;
  setStatusMessage None ;;
  setVideos [] ;;
  setExpansionCount 0 ;;
  call (Js.modify (with_apiStats reset)).

(** [startSearch]; [randomDate] is what [getRandomPastDate()] drew. *)
Definition startSearch (fuel : nat) (randomDate : Qc) (s : Session)
    : option Session :=
  let s1 := snd (startSearch_reset s) in
  let initialWindow := createInitialTimeWindow K randomDate in
  let s2 := snd (setCurrentWindow (Some initialWindow) s1) in
  match run fuel initialWindow 1 s2 with
  | None => None
  | Some (Normal _, s3) => Some s3
  | Some (Thrown, s3) =>
      Some (snd ((setError (Some "An error occurred. Please try again."%string) ;;
                  setIsLoading false) s3))
  end.

End Hook.

(** ** Vocabulary of the properties *)

(** The session once the ids are in and their details fetched: the status
    line announces the analysis, the module state is what the two calls
    left. *)
Definition analysing (s : Session) (videoIds : list string) (m : Youtube)
    : Session :=
  {| hook := hook (snd (setStatusMessage
                          (Some (FoundAnalyzing (length videoIds))) s));
     youtube := m |}.

(** A rare video, in the words of the specification: a view count below the
    threshold. *)
Definition rare (K : Constants) (v : Video) : Prop :=
  exists k : Z, viewCount v = Views k /\ (k < RARE_VIEW_THRESHOLD K)%Z.

(** [ceil(n / b)] on naturals. *)
Definition ceil_div (n b : nat) : nat := (n + (b - 1)) / b.

(** The ids of [videoIds] that have no entry in [videoCache]. *)
Definition uncached (m : Youtube) (videoIds : list string) : list string :=
  filter (fun id => videoCache m !! id = None) videoIds.

(** The module state once a detail request went out for each batch. *)
Definition issued (batches : list (list string)) (m : Youtube) : Youtube :=
  {| videoCache := videoCache m;
     searchCache := searchCache m;
     apiStats :=
       {| searchApiCalls := searchApiCalls (apiStats m);
          videoDetailApiCalls := videoDetailApiCalls (apiStats m) + length batches;
          totalApiCalls := totalApiCalls (apiStats m) + length batches;
          cachedSearches := cachedSearches (apiStats m);
          cachedVideoDetails := cachedVideoDetails (apiStats m) |};
     sent := sent m ++ map GetVideos batches |}.

(** The cache after [allItems.forEach(item => videoCache[item.id] = ...)]. *)
Definition merged (items : list Video) (cache : gmap string Video)
    : gmap string Video :=
  foldl (fun c video => <[id video := video]> c) cache items.

(** The request a search of [w] sends. *)
Definition search_request (w : TimeWindow) : Request :=
  GetSearch MAX_RESULTS_PER_REQUEST (startDate w) (endDate w).

(** The module state once a search request went out. *)
Definition searched (w : TimeWindow) (m : Youtube) : Youtube :=
  send (search_request w)
    (with_apiStats incr_totalApiCalls (with_apiStats incr_searchApiCalls m)).

(** Every entry of the detail cache sits under the id of its video. *)
Definition keyed (cache : gmap string Video) : Prop :=
  forall k v, cache !! k = Some v -> id v = k.

(** [m'] still has every cached search of [m], and a detail for every id [m]
    had one for. *)
Definition keeps_caches (m m' : Youtube) : Prop :=
  searchCache m ⊆ searchCache m'
  /\ forall i, is_Some (videoCache m !! i) -> is_Some (videoCache m' !! i).

(** What one step of the search does to the module state: a search, and a
    detail fetch when the search found ids. *)
Definition client_step (up : Upstream) (w : TimeWindow) (m : Youtube)
    : Youtube :=
  match searchVideosInTimeWindow up w m with
  | (Normal (v :: rest), m1) => snd (getVideoDetails up (v :: rest) m1)
  | (_, m1) => m1
  end.

(** The counters agree: every call counted is a search call or a detail
    call. *)
Definition balanced (a : ApiStats) : Prop :=
  totalApiCalls a = searchApiCalls a + videoDetailApiCalls a.

(** ** A concrete configuration and upstream, for examples *)

Module Example.

(** The values the specification quotes (fewer than 10 views is rare, the
    aggressive factor is 1440, more than 50 results is busy), and others of
    the same kind for the constants it does not quote. *)
Definition K : Constants :=
  {| RARE_VIEW_THRESHOLD := 10;
     AGGRESSIVE_EXPANSION_FACTOR := Q2Qc 1440;
     MODERATE_EXPANSION_FACTOR := Q2Qc 2;
     CONTRACTION_FACTOR := Q2Qc (1 # 2);
     MIN_WINDOW_DURATION_MINUTES := Q2Qc 30;
     BUSY_PERIOD_THRESHOLD := 50;
     MODERATE_PERIOD_THRESHOLD := 10;
     INITIAL_WINDOW_MINUTES := Q2Qc 60 |}.

Definition video (name : string) (views : Z) : Video :=
  {| id := name; title := name; description := ""; thumbnailUrl := "";
     publishedAt := ""; viewCount := Views views; channelTitle := "" |}.

(** The ids ["v0"], ["v1"], ... *)
Definition ids (n : nat) : list string :=
  map (fun k => ("v" +:+ pretty k)%string) (seq 0 n).

Definition no_stats : ApiStats :=
  {| searchApiCalls := 0; videoDetailApiCalls := 0; totalApiCalls := 0;
     cachedSearches := 0; cachedVideoDetails := 0 |}.

Definition fresh : Youtube :=
  {| videoCache := ∅; searchCache := ∅; apiStats := no_stats; sent := [] |}.

Definition idle : Session :=
  {| hook := {| isLoading := false; videos := []; currentWindow := None;
                statusMessage := None; error := None; expansionCount := 0 |};
     youtube := fresh |}.

Definition hour : TimeWindow := createTimeWindow (Q2Qc 1000) (Q2Qc 60).

(** An upstream with [n] videos in every window, each seen [views] times. *)
Definition steady (n : nat) (views : Z) : Upstream :=
  {| search_list := fun _ _ => Some (ids n);
     videos_list := fun batchIds =>
       Some (map (fun name => video name views) batchIds) |}.

(** An upstream whose detail requests fail unless they carry a full batch
    of 50 ids. *)
Definition flaky (n : nat) (views : Z) : Upstream :=
  {| search_list := fun _ _ => Some (ids n);
     videos_list := fun batchIds =>
       if length batchIds =? 50
       then Some (map (fun name => video name views) batchIds)
       else None |}.

(** The session left by a first search, drawn at minute 1000, against an
    upstream with one video seen 3 times. *)
Definition after_first_search : Session :=
  default idle (startSearch K (steady 1 3) 1 (Q2Qc 1000) idle).

(** An upstream that rejects every request. *)
Definition offline : Upstream :=
  {| search_list := fun _ _ => None;
     videos_list := fun _ => None |}.

End Example.

(** ** More vocabulary: requests, counters, windows *)

Definition is_search_request (r : Request) : bool :=
  match r with
  | GetSearch _ _ _ => true
  | GetVideos _ => false
  end.

(** How many of the requests are searches, how many are detail requests. *)
Definition count_search (rs : list Request) : nat :=
  length (List.filter is_search_request rs).

Definition count_videos (rs : list Request) : nat :=
  length (List.filter (fun r => negb (is_search_request r)) rs).

(** A request a step on window [w] may send: the search of [w], or a detail
    request of 1 to [MAX_IDS_PER_REQUEST] ids. *)
Definition request_of (w : TimeWindow) (r : Request) : Prop :=
  match r with
  | GetSearch _ _ _ => r = search_request w
  | GetVideos batchIds => 1 <= length batchIds <= MAX_IDS_PER_REQUEST
  end.

(** From [m] to [m'] the requests [new] were sent, the call counters went up
    by exactly their numbers, and the cache-hit counters did not go down. *)
Definition accounts (new : list Request) (m m' : Youtube) : Prop :=
  sent m' = sent m ++ new
  /\ searchApiCalls (apiStats m')
     = searchApiCalls (apiStats m) + count_search new
  /\ videoDetailApiCalls (apiStats m')
     = videoDetailApiCalls (apiStats m) + count_videos new
  /\ totalApiCalls (apiStats m') = totalApiCalls (apiStats m) + length new
  /\ cachedSearches (apiStats m) <= cachedSearches (apiStats m')
  /\ cachedVideoDetails (apiStats m) <= cachedVideoDetails (apiStats m').

(** No counter of [a] is above its value in [b]. *)
Definition stats_le (a b : ApiStats) : Prop :=
  searchApiCalls a <= searchApiCalls b
  /\ videoDetailApiCalls a <= videoDetailApiCalls b
  /\ totalApiCalls a <= totalApiCalls b
  /\ cachedSearches a <= cachedSearches b
  /\ cachedVideoDetails a <= cachedVideoDetails b.

(** The windows [processAdaptiveSearch] and the empty branch of
    [searchWithExpansion] can hand to the next step. *)
Definition successor (K : Constants) (w w' : TimeWindow) : Prop :=
  w' = createTimeWindow (getWindowCenter w)
         (Num.max (durationMinutes w * CONTRACTION_FACTOR K)%Qc
                  (MIN_WINDOW_DURATION_MINUTES K))
  \/ w' = expandTimeWindow K w (Some (MODERATE_EXPANSION_FACTOR K))
  \/ w' = expandTimeWindow K w None.

(** The last of the items that carry the id [i]. *)
Definition last_with_id (i : string) (items : list Video) : option Video :=
  last (filter (fun v => id v = i) items).

(** The sessions the hook goes through, one per activation of
    [searchWithExpansion], oldest first, for at most [fuel] activations. *)
Fixpoint states (K : Constants) (up : Upstream) (fuel : nat)
    (timeWindow : TimeWindow) (currentStep : nat) (s : Session)
    : list Session :=
  match fuel with
  | 0 => []
  | S fuel' =>
      match searchWithExpansion K up timeWindow currentStep s with
      | (Normal (Call_searchWithExpansion w n), s') =>
          s' :: states K up fuel' w n s'
      | (_, s') => [s']
      end
  end.

(** ** Plain objects read as maps

    [videoCache] is a plain object, and [videoCache[id]] is read for its
    truthiness. Under the name of a member of [Object.prototype] the read
    gives the inherited member when no video was stored, and storing under
    [__proto__] stores no entry of the object. Under every other name the
    object is the map [videoCache] of [Youtube]: the read gives the video
    stored last, or [undefined]. *)

Definition Object_prototype_members : list string :=
  ["constructor"; "__defineGetter__"; "__defineSetter__"; "hasOwnProperty";
   "__lookupGetter__"; "__lookupSetter__"; "isPrototypeOf";
   "propertyIsEnumerable"; "toString"; "valueOf"; "__proto__";
   "toLocaleString"]%string.

Definition is_prototype_member (name : string) : bool :=
  existsb (String.eqb name) Object_prototype_members.

(** None of the ids names a member of [Object.prototype]. *)
Definition ordinary (ids : list string) : Prop :=
  forall i, In i ids -> is_prototype_member i = false.

(** The entries of the detail cache are under ordinary ids: the object has
    the prototype it was made with, and what it holds are its own entries. *)
Definition ordinary_cache (m : Youtube) : Prop :=
  forall i, is_Some (videoCache m !! i) -> is_prototype_member i = false.

(** Whatever the upstream answers to one of the batches, the items carry
    ordinary ids. *)
Definition ordinary_answers (up : Upstream) (batches : list (list string))
    : Prop :=
  forall b items v,
    In b batches -> videos_list up b = Some items -> In v items ->
    is_prototype_member (id v) = false.

(** ** The page ([Home], the caller of the hook) *)

Inductive AppMode :=
| savedVideos
| search.

(** The [useState] cells of [Home]. *)
Record Home := {
  selectedVideoId : option string;
  appMode : AppMode
}.


Definition handleClosePlayer (p : Home) : Home :=
  {| selectedVideoId := None; appMode := appMode p |}.


(** [appMode === 'search'] and [appMode === 'savedVideos']. *)
Definition in_search (p : Home) : bool :=
  match appMode p with
  | search => true
  | savedVideos => false
  end.

Definition in_savedVideos (p : Home) : bool :=
  match appMode p with
  | savedVideos => true
  | search => false
  end.

Definition hasFoundVideos (p : Home) (h : Hook) : bool :=
  in_search p && negb (isLoading h) && (0 <? length (videos h)).

Definition isSearchModeNoResults (p : Home) (h : Hook) : bool :=
  in_search p && (negb (hasFoundVideos p h) || isLoading h).



(** [disabled={isSearchLoading}] on the search button. *)
Definition searchButtonDisabled (h : Hook) : bool := isLoading h.

(** ** The range of [Date]

    A [Date] holds a time value of at most 8.64e15 ms on either side of the
    epoch; a [Date] made beyond that is invalid, and [toISOString()] throws
    a [RangeError] on an invalid [Date]. [getSearchCacheKey] prints both ends
    of the window, and [searchVideosInTimeWindow] calls it before its [try]:
    the error leaves [searchVideosInTimeWindow] and the activation of
    [searchWithExpansion] that awaits it, and is caught by [startSearch].

    The functions of this module are those of the client and of the hook
    with that error in them; an instant counts the minutes since the epoch.
    On a window within the range they are the functions above. *)

Module Dated.

(** 8.64e15 ms, in minutes. *)
Definition MAX_TIME_VALUE : Qc := Q2Qc 144000000000.

(** Whether the instant is the time value of a valid [Date]. *)
Definition valid (date : Qc) : bool :=
  bool_decide (- MAX_TIME_VALUE <= date)%Qc
  && bool_decide (date <= MAX_TIME_VALUE)%Qc.

(** Both ends of the window are valid dates. *)
Definition in_range (window : TimeWindow) : bool :=
  valid (startDate window) && valid (endDate window).

(** [date.toISOString()]: the instant printed, or a [RangeError]. *)
Definition toISOString (date : Qc) : Js Youtube Qc :=
  if valid date then Js.ret date else Js.throw.

Definition getSearchCacheKey (window : TimeWindow) : Js Youtube (Qc * Qc) :=
  (printedStart <- toISOString (startDate window) ;;
   printedEnd <- toISOString (endDate window) ;;
   Js.ret (printedStart, printedEnd))%js.

Definition searchVideosInTimeWindow (up : Upstream) (window : TimeWindow)
    : Js Youtube (list string) :=
  (cacheKey <- getSearchCacheKey window ;;
   cached <- Js.gets (fun m => searchCache m !! cacheKey) ;;
   match cached with
   | Some ids =>
       Js.modify (with_apiStats incr_cachedSearches) ;;
       Js.ret ids
   | None =>
       Js.try_catch
         (Js.modify (with_apiStats incr_searchApiCalls) ;;
          Js.modify (with_apiStats incr_totalApiCalls) ;;
          videoIds <- axios_get_search up window ;;
          Js.modify (with_searchCache <[cacheKey := videoIds]>) ;;
          Js.ret videoIds)
         (Js.ret [])
   end)%js.

(** One activation of [searchWithExpansion], up to its tail call. *)
Definition searchWithExpansion (K : Constants) (up : Upstream)
    (timeWindow : TimeWindow) (currentStep : nat) : Js Session Next :=
  (setStatusMessage
     (Some (Scanning currentStep (durationMinutes timeWindow))) ;;
   videoIds <- call (searchVideosInTimeWindow up timeWindow) ;;
   if length videoIds =? 0 then
     let nextStep := currentStep + 1 in
     let newWindow := expandTimeWindow K timeWindow None in
     let expansionFactor :=
       Num.round (durationMinutes newWindow / durationMinutes timeWindow)%Qc in
     setStatusMessage
       (Some (NoVideosFound expansionFactor (durationMinutes newWindow))) ;;
     handleNextSearchStep newWindow nextStep
   else
     setStatusMessage (Some (FoundAnalyzing (length videoIds))) ;;
     videoDetails <- call (getVideoDetails up videoIds) ;;
     let rareVideos := filterRareVideos K videoDetails in
     if length rareVideos =? 0 then
       processAdaptiveSearch K videoIds videoDetails timeWindow currentStep
     else
       setVideos rareVideos ;;
       setStatusMessage None ;;
       setIsLoading false ;;
       Js.ret Return)%js.

(** The chain of activations started by [searchWithExpansion(w, n)]; [None]
    when it is still going after [fuel] of them. *)
Fixpoint run (K : Constants) (up : Upstream) (fuel : nat)
    (timeWindow : TimeWindow) (currentStep : nat) (s : Session)
    : option (Completion unit * Session) :=
  match fuel with
  | 0 => None
  | S fuel' =>
      match searchWithExpansion K up timeWindow currentStep s with
      | (Normal (Call_searchWithExpansion w n), s') => run K up fuel' w n s'
      | (Normal Return, s') => Some (Normal tt, s')
      | (Thrown, s') => Some (Thrown, s')
      end
  end.

(** [startSearch]; [randomDate] is what [getRandomPastDate()] drew. *)
Definition startSearch (K : Constants) (up : Upstream) (fuel : nat)
    (randomDate : Qc) (s : Session) : option Session :=
  let s1 := snd (startSearch_reset s) in
  let initialWindow := createInitialTimeWindow K randomDate in
  let s2 := snd (setCurrentWindow (Some initialWindow) s1) in
  match run K up fuel initialWindow 1 s2 with
  | None => None
  | Some (Normal _, s3) => Some s3
  | Some (Thrown, s3) =>
      Some (snd ((setError (Some "An error occurred. Please try again."%string) ;;
                  setIsLoading false)%js s3))
  end.


End Dated.

(** ** The saved-videos route ([GET] and [POST /api/saved-videos]) *)

(** A call into [initDatabase] or [VideoModel]. *)
Inductive DbCall :=
| InitDatabase
| TestConnection
| GetAll
| Exists (videoId : string)
| Save (video : Video).

(** The database behind [@/lib/db] and [VideoModel], which are not part of
    the sources at hand: what each call answers, given the calls made before
    it. [false] and [None] are a rejected promise. *)
Record Database := {
  initDatabase_ok : list DbCall -> bool;
  testConnection_ok : list DbCall -> bool;
  getAll_rows : list DbCall -> option (list Video);
  exists_row : list DbCall -> string -> option bool;
  save_ok : list DbCall -> Video -> bool
}.

(** The module state of the route, [dbInitialized], and the calls made to
    the database so far, oldest first ([calls] is not a variable of the
    program). *)
Record Route := {
  dbInitialized : bool;
  calls : list DbCall
}.

(** What the handlers answer with [NextResponse.json]. [Json_error context]
    is the answer built from [handleApiError(error, context)], which is not
    part of the sources at hand and is taken to return. *)
Inductive Response :=
| Json_videos (videos : list Video)
| Json_saved
| Json_already_saved
| Json_error (context : string).

(** A request to the route; the body of a [POST] is the [video] of
    [await request.json()], or [None] when reading it throws. *)
Inductive HttpRequest :=
| Get
| Post (body : option Video).

Definition set_dbInitialized (b : bool) (r : Route) : Route :=
  {| dbInitialized := b; calls := calls r |}.

(** The route once one more call went to the database. *)
Definition logged (c : DbCall) (r : Route) : Route :=
  {| dbInitialized := dbInitialized r; calls := calls r ++ [c] |}.

(** An awaited call into the database. *)
Definition db_call {A} (c : DbCall) (answer : list DbCall -> option A)
    : Js Route A :=
  fun r =>
    let r' := {| dbInitialized := dbInitialized r; calls := calls r ++ [c] |} in
    match answer (calls r) with
    | Some a => (Normal a, r')
    | None => (Thrown, r')
    end.

Definition succeeds (b : bool) : option unit := if b then Some tt else None.

Section SavedVideosRoute.

Context (db : Database).

Local Open Scope js_scope.

Definition initDatabase : Js Route unit :=
  db_call InitDatabase (fun log => succeeds (initDatabase_ok db log)).

Definition VideoModel_testConnection : Js Route unit :=
  db_call TestConnection (fun log => succeeds (testConnection_ok db log)).

Definition VideoModel_getAll : Js Route (list Video) :=
  db_call GetAll (getAll_rows db).

Definition VideoModel_exists (videoId : string) : Js Route bool :=
  db_call (Exists videoId) (fun log => exists_row db log videoId).

Definition VideoModel_save (video : Video) : Js Route unit :=
  db_call (Save video) (fun log => succeeds (save_ok db log video)).

Definition ensureInitialized : Js Route unit :=
  Js.try_catch
    (initialized <- Js.gets dbInitialized ;;
     if negb initialized then
       initDatabase ;;
       Js.modify (set_dbInitialized true)
     else
       Js.try_catch VideoModel_testConnection initDatabase)
    Js.throw.

Definition GET : Js Route Response :=
  Js.try_catch
    (ensureInitialized ;;
     videos <- VideoModel_getAll ;;
     Js.ret (Json_videos videos))
    (Js.ret (Json_error "fetching saved videos")).

(** [await request.json()] and [const { video } = data]. *)
Definition request_json (body : option Video) : Js Route Video :=
  match body with
  | Some video => Js.ret video
  | None => Js.throw
  end.

Definition POST (body : option Video) : Js Route Response :=
  Js.try_catch
    (ensureInitialized ;;
     video <- request_json body ;;
     found <- VideoModel_exists (id video) ;;
     if found then Js.ret Json_already_saved
     else
       VideoModel_save video ;;
       Js.ret Json_saved)
    (Js.ret (Json_error "saving video")).

Definition handle (req : HttpRequest) : Js Route Response :=
  match req with
  | Get => GET
  | Post body => POST body
  end.

(** Requests served one after the other by one process. *)
Fixpoint serve (reqs : list HttpRequest) (r : Route)
    : list (Completion Response) * Route :=
  match reqs with
  | [] => ([], r)
  | req :: rest =>
      let '(answer, r1) := handle req r in
      let '(answers, r2) := serve rest r1 in
      (answer :: answers, r2)
  end.

End SavedVideosRoute.

(** The flag is up only if a call of [initDatabase] was answered. *)
Definition earned (db : Database) (r : Route) : Prop :=
  dbInitialized r = true ->
  exists pre post,
    calls r = pre ++ InitDatabase :: post /\ initDatabase_ok db pre = true.

(** The context a handler gives to [handleApiError]. *)
Definition error_context (req : HttpRequest) : string :=
  match req with
  | Get => "fetching saved videos"
  | Post _ => "saving video"
  end.

(** How many times [initDatabase] was called. *)
Definition count_init (log : list DbCall) : nat :=
  length (List.filter (fun c => match c with InitDatabase => true | _ => false end)
            log).

(** The videos handed to [VideoModel.save], in the order of the calls. *)
Definition save_calls (log : list DbCall) : list Video :=
  omap (fun c => match c with Save v => Some v | _ => None end) log.

Module Scenario.

(** A process that has served nothing yet. *)
Definition cold : Route := {| dbInitialized := false; calls := [] |}.

(** A database that works, and holds the videos handed to it. *)
Definition store : Database :=
  {| initDatabase_ok := fun _ => true;
     testConnection_ok := fun _ => true;
     getAll_rows := fun log => Some (save_calls log);
     exists_row := fun log videoId =>
       Some (bool_decide (videoId ∈ map id (save_calls log)));
     save_ok := fun _ _ => true |}.

(** A database that rejects every call. *)
Definition down : Database :=
  {| initDatabase_ok := fun _ => false;
     testConnection_ok := fun _ => false;
     getAll_rows := fun _ => None;
     exists_row := fun _ _ => None;
     save_ok := fun _ _ => false |}.

(** A database that is down for its first call only. *)
Definition waking : Database :=
  {| initDatabase_ok := fun log => negb (length log =? 0);
     testConnection_ok := fun _ => true;
     getAll_rows := fun log => Some (save_calls log);
     exists_row := fun log videoId =>
       Some (bool_decide (videoId ∈ map id (save_calls log)));
     save_ok := fun _ _ => true |}.

(** The constants of the examples, with a threshold of 100 views. *)
Definition lenient : Constants :=
  {| RARE_VIEW_THRESHOLD := 100;
     AGGRESSIVE_EXPANSION_FACTOR := AGGRESSIVE_EXPANSION_FACTOR Example.K;
     MODERATE_EXPANSION_FACTOR := MODERATE_EXPANSION_FACTOR Example.K;
     CONTRACTION_FACTOR := CONTRACTION_FACTOR Example.K;
     MIN_WINDOW_DURATION_MINUTES := MIN_WINDOW_DURATION_MINUTES Example.K;
     BUSY_PERIOD_THRESHOLD := BUSY_PERIOD_THRESHOLD Example.K;
     MODERATE_PERIOD_THRESHOLD := MODERATE_PERIOD_THRESHOLD Example.K;
     INITIAL_WINDOW_MINUTES := INITIAL_WINDOW_MINUTES Example.K |}.

(** A page in search mode. *)
Definition searching : Home := {| selectedVideoId := None; appMode := search |}.

(** An upstream with nothing before the third search, then one video seen
    [3] times: the answer depends on how wide the window is. *)
Definition sparse : Upstream :=
  {| search_list := fun after before =>
       if decide (Q2Qc 100000 < before - after)%Qc
       then Some (Example.ids 1) else Some [];
     videos_list := fun batchIds =>
       Some (map (fun name => Example.video name 3) batchIds) |}.

End Scenario.

(** * Properties *)

(** ** Numbers and windows *)

Lemma Num_max_spec (a b : Qc) :
  ((a < b)%Qc /\ Num.max a b = b) \/ ((b <= a)%Qc /\ Num.max a b = a).
Proof.
  unfold Num.max. destruct (a ?= b)%Qc eqn:E.
  - right. split; [|reflexivity]. apply Qceq_alt in E. subst. apply Qcle_refl.
  - left. split; [|reflexivity]. now apply Qclt_alt.
  - right. split; [|reflexivity]. apply Qcgt_alt in E. now apply Qclt_le_weak.
Qed.

Lemma Num_max_ge_r (a b : Qc) : (b <= Num.max a b)%Qc.
Proof.
  destruct (Num_max_spec a b) as [[_ ->]|[H ->]]; [apply Qcle_refl | exact H].
Qed.

Lemma Num_max_ge_l (a b : Qc) : (a <= Num.max a b)%Qc.
Proof.
  destruct (Num_max_spec a b) as [[H ->]|[_ ->]];
    [now apply Qclt_le_weak | apply Qcle_refl].
Qed.

Lemma Num_midpoint (c d : Qc) : ((c - Num.half d + (c + Num.half d)) / 2)%Qc = c.
Proof. unfold Num.half. field. discriminate. Qed.

Lemma getWindowCenter_createTimeWindow (c d : Qc) :
  getWindowCenter (createTimeWindow c d) = c.
Proof. unfold getWindowCenter, createTimeWindow. simpl. apply Num_midpoint. Qed.

Lemma durationMinutes_createTimeWindow (c d : Qc) :
  durationMinutes (createTimeWindow c d) = d.
Proof. reflexivity. Qed.


(** C9. For every window [w] and factor [f] (so for every [f > 1]),
    [expandTimeWindow(w, f)] lasts [w.durationMinutes * f] minutes and has the
    center of [w]; called without a factor it uses
    [AGGRESSIVE_EXPANSION_FACTOR]. *)
Theorem expandTimeWindow_scales_around_center (K : Constants) (w : TimeWindow) (f : Qc) :
  durationMinutes (expandTimeWindow K w (Some f)) = (durationMinutes w * f)%Qc
  /\ getWindowCenter (expandTimeWindow K w (Some f)) = getWindowCenter w
  /\ expandTimeWindow K w None
     = expandTimeWindow K w (Some (AGGRESSIVE_EXPANSION_FACTOR K)).
Proof.
  unfold expandTimeWindow. simpl. split; [reflexivity|]. split; [|reflexivity].
  apply getWindowCenter_createTimeWindow.
Qed.

(** C8. In the busy branch of [processAdaptiveSearch] the window handed to
    the next step has the center of the current one and lasts
    [max(durationMinutes * CONTRACTION_FACTOR, MIN_WINDOW_DURATION_MINUTES)]
    minutes: the larger of the two, hence never less than
    [MIN_WINDOW_DURATION_MINUTES]. This for every window, every factor (so
    every factor below 1) and every floor. *)
Theorem contraction_keeps_center_and_floor (K : Constants)
    (videoIds : list string) (videoDetails : list Video)
    (w : TimeWindow) (n : nat) (s : Session) :
  (BUSY_PERIOD_THRESHOLD K < Z.of_nat (length videoIds))%Z ->
  exists nextWindow s',
    processAdaptiveSearch K videoIds videoDetails w n s
      = (Normal (Call_searchWithExpansion nextWindow (n + 1)), s')
    /\ durationMinutes nextWindow
       = Num.max (durationMinutes w * CONTRACTION_FACTOR K)%Qc
                 (MIN_WINDOW_DURATION_MINUTES K)
    /\ getWindowCenter nextWindow = getWindowCenter w
    /\ (MIN_WINDOW_DURATION_MINUTES K <= durationMinutes nextWindow)%Qc
    /\ (durationMinutes w * CONTRACTION_FACTOR K
        <= durationMinutes nextWindow)%Qc
    /\ (durationMinutes nextWindow
        = (durationMinutes w * CONTRACTION_FACTOR K)%Qc
        \/ durationMinutes nextWindow = MIN_WINDOW_DURATION_MINUTES K).
Proof.
  intros Hbusy. apply Z.ltb_lt in Hbusy.
  unfold processAdaptiveSearch. rewrite Hbusy.
  eexists _, _. split; [reflexivity|].
  rewrite getWindowCenter_createTimeWindow, durationMinutes_createTimeWindow.
  split; [reflexivity|]. split; [reflexivity|].
  split; [apply Num_max_ge_r|]. split; [apply Num_max_ge_l|].
  destruct (Num_max_spec (durationMinutes w * CONTRACTION_FACTOR K)%Qc
              (MIN_WINDOW_DURATION_MINUTES K)) as [[_ ->]|[_ ->]]; auto.
Qed.

Lemma contraction_keeps_center_and_floor_witness :
  (BUSY_PERIOD_THRESHOLD Example.K < Z.of_nat (length (Example.ids 51)))%Z
  /\ exists nextWindow s',
       processAdaptiveSearch Example.K (Example.ids 51) [] Example.hour 1
         Example.idle
         = (Normal (Call_searchWithExpansion nextWindow (1 + 1)), s')
       /\ durationMinutes nextWindow = Q2Qc 30
       /\ getWindowCenter nextWindow = getWindowCenter Example.hour.
Proof.
  split; [vm_compute; reflexivity|].
  destruct (contraction_keeps_center_and_floor Example.K (Example.ids 51) []
              Example.hour 1 Example.idle)
    as [nextWindow [s' [Hstep [Hduration [Hcenter _]]]]].
  - vm_compute; reflexivity.
  - exists nextWindow, s'. split; [exact Hstep|]. split; [|exact Hcenter].
    rewrite Hduration. apply Qc_is_canon. vm_compute. reflexivity.
Defined.

(** ** One step of the search *)

Lemma searchWithExpansion_found (K : Constants) (up : Upstream)
    (w : TimeWindow) (n : nat) (s : Session)
    (videoIds : list string) (m1 : Youtube)
    (videoDetails : list Video) (m2 : Youtube) :
  searchVideosInTimeWindow up w (youtube s) = (Normal videoIds, m1) ->
  videoIds <> [] ->
  getVideoDetails up videoIds m1 = (Normal videoDetails, m2) ->
  searchWithExpansion K up w n s
  = if length (filterRareVideos K videoDetails) =? 0
    then processAdaptiveSearch K videoIds videoDetails w n
           (analysing s videoIds m2)
    else (Normal Return,
          snd ((setVideos (filterRareVideos K videoDetails) ;;
                setStatusMessage None ;;
                setIsLoading false)%js (analysing s videoIds m2))).
Proof.
  intros Hsearch Hne Hdetails.
  unfold searchWithExpansion.
  unfold Js.bind at 1. unfold setStatusMessage at 1, Js.modify at 1.
  unfold Js.bind at 1. unfold call at 1. simpl youtube. rewrite Hsearch.
  destruct videoIds as [|v0 rest]; [contradiction|].
  change (length (v0 :: rest) =? 0) with false. cbv iota.
  unfold Js.bind at 1. unfold setStatusMessage at 1, Js.modify at 1.
  unfold Js.bind at 1. unfold call at 1. simpl youtube. rewrite Hdetails.
  unfold analysing. simpl.
  destruct (length (filterRareVideos K videoDetails) =? 0); reflexivity.
Qed.

Lemma getVideoDetails_nil (up : Upstream) (m : Youtube) :
  getVideoDetails up [] m = (Normal [], m).
Proof. reflexivity. Qed.

Lemma views_lt_rare (K : Constants) (v : Video) :
  views_lt (viewCount v) (RARE_VIEW_THRESHOLD K) = true <-> rare K v.
Proof.
  unfold rare, views_lt. destruct (viewCount v) as [k|]; split.
  - intros H. exists k. split; [reflexivity|]. now apply Z.ltb_lt.
  - intros [k' [[= <-] H]]. now apply Z.ltb_lt.
  - discriminate.
  - intros [k' [[=] _]].
Qed.

Lemma filterRareVideos_spec (K : Constants) (ds : list Video) (v : Video) :
  In v (filterRareVideos K ds) <-> In v ds /\ rare K v.
Proof.
  unfold filterRareVideos. rewrite filter_In. now rewrite views_lt_rare.
Qed.

Lemma filterRareVideos_sublist (K : Constants) (ds : list Video) :
  sublist (filterRareVideos K ds) ds.
Proof.
  unfold filterRareVideos. induction ds as [|d ds IH]; simpl.
  - constructor.
  - destruct (views_lt _ _); now constructor.
Qed.

(** C2. When the details fetched in a step hold a video with fewer views than
    the threshold, the step stores exactly the videos below the threshold (in
    the order they were fetched) as the result, clears the status message and
    the loading flag, and returns: the chain of steps ends there, whatever
    fuel is left. *)
Theorem rare_videos_end_the_search (K : Constants) (up : Upstream)
    (w : TimeWindow) (n : nat) (s : Session)
    (videoIds : list string) (m1 : Youtube)
    (videoDetails : list Video) (m2 : Youtube) :
  searchVideosInTimeWindow up w (youtube s) = (Normal videoIds, m1) ->
  getVideoDetails up videoIds m1 = (Normal videoDetails, m2) ->
  (exists d, In d videoDetails /\ rare K d) ->
  exists s',
    searchWithExpansion K up w n s = (Normal Return, s')
    /\ (forall fuel, run K up (S fuel) w n s = Some (Normal tt, s'))
    /\ videos (hook s') = filterRareVideos K videoDetails
    /\ (forall v, In v (videos (hook s')) <-> In v videoDetails /\ rare K v)
    /\ sublist (videos (hook s')) videoDetails
    /\ statusMessage (hook s') = None
    /\ isLoading (hook s') = false
    /\ error (hook s') = error (hook s)
    /\ youtube s' = m2.
Proof.
  intros Hsearch Hdetails [d [Hin Hrare]].
  assert (Hne : videoIds <> []).
  { intros ->. rewrite getVideoDetails_nil in Hdetails.
    injection Hdetails as <- _. destruct Hin. }
  pose proof (searchWithExpansion_found K up w n s _ _ _ _ Hsearch Hne Hdetails)
    as Hstep.
  assert (Hsome : (length (filterRareVideos K videoDetails) =? 0) = false).
  { assert (In d (filterRareVideos K videoDetails)) as Hd
      by (apply filterRareVideos_spec; auto).
    destruct (filterRareVideos K videoDetails); [destruct Hd | reflexivity]. }
  rewrite Hsome in Hstep.
  eexists. split; [exact Hstep|].
  split; [intros fuel; simpl; now rewrite Hstep|].
  split; [reflexivity|].
  split; [intros v; apply filterRareVideos_spec|].
  split; [apply filterRareVideos_sublist|].
  repeat split.
Qed.

Lemma rare_videos_end_the_search_witness :
  exists s',
    searchWithExpansion Example.K (Example.steady 1 3) Example.hour 1
      Example.idle = (Normal Return, s')
    /\ videos (hook s') = [Example.video "v0" 3]
    /\ statusMessage (hook s') = None
    /\ isLoading (hook s') = false.
Proof.
  destruct (rare_videos_end_the_search Example.K (Example.steady 1 3)
              Example.hour 1 Example.idle
              (Example.ids 1)
              (snd (searchVideosInTimeWindow (Example.steady 1 3) Example.hour
                      Example.fresh))
              [Example.video "v0" 3]
              (snd (getVideoDetails (Example.steady 1 3) (Example.ids 1)
                      (snd (searchVideosInTimeWindow (Example.steady 1 3)
                              Example.hour Example.fresh)))))
    as [s' [Hstep [_ [Hvideos [_ [_ [Hmsg [Hload _]]]]]]]].
  - vm_compute; reflexivity.
  - vm_compute; reflexivity.
  - exists (Example.video "v0" 3). split; [left; reflexivity|].
    exists 3%Z. split; [reflexivity | vm_compute; reflexivity].
  - exists s'. rewrite Hvideos. repeat split; assumption.
Defined.

(** C1. In a step whose search found ids and whose details hold no rare
    video, the window of the next step follows the number of ids: above
    [BUSY_PERIOD_THRESHOLD] it is the contracted window (same center,
    [max(duration * CONTRACTION_FACTOR, MIN_WINDOW_DURATION_MINUTES)]
    minutes); above [MODERATE_PERIOD_THRESHOLD] and not above
    [BUSY_PERIOD_THRESHOLD] it is the window expanded by
    [MODERATE_EXPANSION_FACTOR]; otherwise it is the window expanded by
    [AGGRESSIVE_EXPANSION_FACTOR]. The thresholds are taken in their order,
    moderate not above busy. *)
Theorem adaptive_window_classification (K : Constants) (up : Upstream)
    (w : TimeWindow) (n : nat) (s : Session)
    (videoIds : list string) (m1 : Youtube)
    (videoDetails : list Video) (m2 : Youtube) :
  (MODERATE_PERIOD_THRESHOLD K <= BUSY_PERIOD_THRESHOLD K)%Z ->
  searchVideosInTimeWindow up w (youtube s) = (Normal videoIds, m1) ->
  videoIds <> [] ->
  getVideoDetails up videoIds m1 = (Normal videoDetails, m2) ->
  filterRareVideos K videoDetails = [] ->
  exists nextWindow s',
    searchWithExpansion K up w n s
      = (Normal (Call_searchWithExpansion nextWindow (n + 1)), s')
    /\ currentWindow (hook s') = Some nextWindow
    /\ youtube s' = m2
    /\ ((BUSY_PERIOD_THRESHOLD K < Z.of_nat (length videoIds))%Z ->
        nextWindow
          = createTimeWindow (getWindowCenter w)
              (Num.max (durationMinutes w * CONTRACTION_FACTOR K)%Qc
                       (MIN_WINDOW_DURATION_MINUTES K))
        /\ durationMinutes nextWindow
           = Num.max (durationMinutes w * CONTRACTION_FACTOR K)%Qc
                     (MIN_WINDOW_DURATION_MINUTES K)
        /\ getWindowCenter nextWindow = getWindowCenter w)
    /\ ((MODERATE_PERIOD_THRESHOLD K < Z.of_nat (length videoIds)
         <= BUSY_PERIOD_THRESHOLD K)%Z ->
        nextWindow = expandTimeWindow K w (Some (MODERATE_EXPANSION_FACTOR K)))
    /\ ((Z.of_nat (length videoIds) <= MODERATE_PERIOD_THRESHOLD K)%Z ->
        nextWindow
          = expandTimeWindow K w (Some (AGGRESSIVE_EXPANSION_FACTOR K))).
Proof.
  intros Hord Hsearch Hne Hdetails Hnone.
  rewrite (searchWithExpansion_found K up w n s _ _ _ _ Hsearch Hne Hdetails).
  rewrite Hnone. change (length (@nil Video) =? 0) with true. cbv iota.
  unfold processAdaptiveSearch.
  destruct (BUSY_PERIOD_THRESHOLD K <? Z.of_nat (length videoIds))%Z eqn:Hbusy;
    [|destruct (MODERATE_PERIOD_THRESHOLD K <? Z.of_nat (length videoIds))%Z
        eqn:Hmod];
    eexists _, _; (split; [reflexivity|]);
    (split; [reflexivity|]); (split; [reflexivity|]);
    try apply Z.ltb_lt in Hbusy; try apply Z.ltb_ge in Hbusy;
    try apply Z.ltb_lt in Hmod; try apply Z.ltb_ge in Hmod.
  - split; [|split]; intros; try lia.
    split; [reflexivity|]. split; [reflexivity|].
    apply getWindowCenter_createTimeWindow.
  - split; [|split]; intros; try lia. reflexivity.
  - split; [|split]; intros; try lia. reflexivity.
Qed.

Lemma adaptive_window_classification_witness :
  exists nextWindow s',
    searchWithExpansion Example.K (Example.steady 5 100) Example.hour 1
      Example.idle
      = (Normal (Call_searchWithExpansion nextWindow (1 + 1)), s')
    /\ nextWindow
       = expandTimeWindow Example.K Example.hour
           (Some (AGGRESSIVE_EXPANSION_FACTOR Example.K)).
Proof.
  destruct (adaptive_window_classification Example.K (Example.steady 5 100)
              Example.hour 1 Example.idle
              (Example.ids 5)
              (snd (searchVideosInTimeWindow (Example.steady 5 100)
                      Example.hour Example.fresh))
              (map (fun name => Example.video name 100) (Example.ids 5))
              (snd (getVideoDetails (Example.steady 5 100) (Example.ids 5)
                      (snd (searchVideosInTimeWindow (Example.steady 5 100)
                              Example.hour Example.fresh)))))
    as [nextWindow [s' [Hstep [_ [_ [_ [_ Haggressive]]]]]]].
  - vm_compute; discriminate.
  - vm_compute; reflexivity.
  - vm_compute; discriminate.
  - vm_compute; reflexivity.
  - vm_compute; reflexivity.
  - exists nextWindow, s'. split; [exact Hstep|].
    apply Haggressive. vm_compute; discriminate.
Defined.

(** ** The upstream client *)

Lemma ceil_div_0 : ceil_div 0 MAX_IDS_PER_REQUEST = 0.
Proof. reflexivity. Qed.

Lemma ceil_div_step (d : nat) :
  0 < d ->
  ceil_div d MAX_IDS_PER_REQUEST
  = S (ceil_div (d - MAX_IDS_PER_REQUEST) MAX_IDS_PER_REQUEST).
Proof.
  unfold ceil_div, MAX_IDS_PER_REQUEST. intros Hd.
  destruct (le_lt_dec 50 d) as [Hle|Hlt].
  - replace (d + (50 - 1)) with ((d - 50 + (50 - 1)) + 1 * 50) by lia.
    rewrite Nat.div_add by lia. lia.
  - replace (d - 50) with 0 by lia.
    replace (d + (50 - 1)) with ((d - 1) + 1 * 50) by lia.
    rewrite Nat.div_add by lia.
    rewrite !Nat.div_small by lia. reflexivity.
Qed.

Lemma batch_loop_spec (n i : nat) (l : list string) :
  length l - i <= n ->
  length (batch_loop n i l) = ceil_div (length l - i) MAX_IDS_PER_REQUEST
  /\ concat (batch_loop n i l) = drop i l
  /\ Forall (fun b => 1 <= length b <= MAX_IDS_PER_REQUEST) (batch_loop n i l).
Proof.
  revert i. induction n as [|n IH]; intros i Hn; cbn [batch_loop].
  - replace (length l - i) with 0 by lia.
    rewrite drop_ge by lia. repeat split; constructor.
  - destruct (Nat.ltb_spec i (length l)) as [Hlt|Hge].
    + destruct (IH (i + MAX_IDS_PER_REQUEST)) as [Hlen [Hcat Hall]];
        [unfold MAX_IDS_PER_REQUEST; lia|].
      unfold slice.
      replace (i + MAX_IDS_PER_REQUEST - i) with MAX_IDS_PER_REQUEST by lia.
      split; [|split].
      * cbn [length]. rewrite Hlen, (ceil_div_step (length l - i)) by lia.
        do 2 f_equal. lia.
      * cbn [concat]. rewrite Hcat.
        rewrite <- (take_drop MAX_IDS_PER_REQUEST (drop i l)) at 2.
        rewrite drop_drop. reflexivity.
      * constructor; [|exact Hall].
        rewrite length_take, length_drop. unfold MAX_IDS_PER_REQUEST. lia.
    + replace (length l - i) with 0 by lia.
      rewrite drop_ge by lia. repeat split; constructor.
Qed.

Lemma make_batches_spec (l : list string) :
  length (make_batches l) = ceil_div (length l) MAX_IDS_PER_REQUEST
  /\ concat (make_batches l) = l
  /\ Forall (fun b => 1 <= length b <= MAX_IDS_PER_REQUEST) (make_batches l).
Proof.
  unfold make_batches.
  destruct (batch_loop_spec (length l) 0 l) as [Hlen [Hcat Hall]]; [lia|].
  rewrite Nat.sub_0_r in Hlen. rewrite drop_0 in Hcat. auto.
Qed.

Lemma Youtube_eq (m m' : Youtube) :
  videoCache m = videoCache m' -> searchCache m = searchCache m' ->
  apiStats m = apiStats m' -> sent m = sent m' -> m = m'.
Proof. destruct m, m'; simpl; intros; subst; reflexivity. Qed.

Lemma ApiStats_eq (a b : ApiStats) :
  searchApiCalls a = searchApiCalls b ->
  videoDetailApiCalls a = videoDetailApiCalls b ->
  totalApiCalls a = totalApiCalls b ->
  cachedSearches a = cachedSearches b ->
  cachedVideoDetails a = cachedVideoDetails b -> a = b.
Proof. destruct a, b; simpl; intros; subst; reflexivity. Qed.

(** One callback of the batch map: count the call, send the request. *)
Lemma batch_callback (up : Upstream) (b : list string) (m : Youtube) :
  (Js.modify (with_apiStats incr_videoDetailApiCalls) ;;
   Js.modify (with_apiStats incr_totalApiCalls) ;;
   axios_get_videos up b)%js m
  = (match videos_list up b with
     | Some items => Normal items
     | None => Thrown
     end,
     send (GetVideos b)
       (with_apiStats incr_totalApiCalls
          (with_apiStats incr_videoDetailApiCalls m))).
Proof.
  unfold axios_get_videos, Js.bind, Js.modify, Js.ret, Js.throw.
  destruct (videos_list up b); reflexivity.
Qed.

(** All the batch requests go out, and the join succeeds exactly when every
    one of them does. *)
Lemma Promise_all_batches (up : Upstream) (batches : list (list string))
    (m : Youtube) :
  Js.Promise_all
    (map (fun batchIds =>
            (Js.modify (with_apiStats incr_videoDetailApiCalls) ;;
             Js.modify (with_apiStats incr_totalApiCalls) ;;
             axios_get_videos up batchIds)%js)
         batches) m
  = (match mapM (videos_list up) batches with
     | Some batchResults => Normal batchResults
     | None => Thrown
     end, issued batches m).
Proof.
  revert m. induction batches as [|b rest IH]; intros m.
  - simpl. unfold Js.ret. f_equal. apply Youtube_eq; simpl; auto.
    + apply ApiStats_eq; simpl; lia.
    + now rewrite app_nil_r.
  - assert (issued rest
              (send (GetVideos b)
                 (with_apiStats incr_totalApiCalls
                    (with_apiStats incr_videoDetailApiCalls m)))
            = issued (b :: rest) m) as Hissued.
    { apply Youtube_eq; simpl; auto.
      - apply ApiStats_eq; simpl; lia.
      - now rewrite <- app_assoc. }
    cbn [map Js.Promise_all mapM].
    rewrite batch_callback, IH, Hissued.
    destruct (videos_list up b) as [items|]; simpl;
      destruct (mapM (videos_list up) rest); reflexivity.
Qed.

Lemma forEach_merged (items : list Video) (m : Youtube) :
  foldl (fun s video => with_videoCache <[id video := video]> s) m items
  = with_videoCache (merged items) m.
Proof.
  revert m. induction items as [|v items IH]; intros m; simpl.
  - now destruct m.
  - rewrite IH. reflexivity.
Qed.

(** [getVideoDetails], case by case. *)
Lemma getVideoDetails_eq (up : Upstream) (videoIds : list string) (m : Youtube) :
  getVideoDetails up videoIds m
  = match videoIds, uncached m videoIds with
    | [], _ => (Normal [], m)
    | _, [] =>
        (Normal (omap (fun id => videoCache m !! id) videoIds),
         with_apiStats (add_cachedVideoDetails (length videoIds)) m)
    | _, missing =>
        let m1 := issued (make_batches missing) m in
        match mapM (videos_list up) (make_batches missing) with
        | Some batchResults =>
            let m2 := with_videoCache (merged (concat batchResults)) m1 in
            (Normal (omap (fun id => videoCache m2 !! id) videoIds), m2)
        | None =>
            (Normal (omap (fun id => videoCache m !! id) videoIds), m1)
        end
    end.
Proof.
  unfold getVideoDetails, uncached.
  destruct videoIds as [|v0 rest]; [reflexivity|].
  change (length (v0 :: rest) =? 0) with false. cbv iota.
  unfold Js.bind at 1, Js.gets at 1.
  destruct (filter _ (v0 :: rest)) as [|u0 us] eqn:Hmissing.
  - reflexivity.
  - change (length (u0 :: us) =? 0) with false. cbv iota.
    unfold Js.try_catch, Js.bind at 1. rewrite Promise_all_batches.
    destruct (mapM _ _) as [batchResults|]; [|reflexivity].
    unfold Js.bind, Js.forEach, Js.modify. rewrite forEach_merged.
    reflexivity.
Qed.

Lemma merged_lookup_None (items : list Video) (cache : gmap string Video)
    (i : string) :
  merged items cache !! i = None
  <-> cache !! i = None /\ forall v, In v items -> id v <> i.
Proof.
  unfold merged. revert cache.
  induction items as [|v items IH]; intros cache; simpl.
  - split; [intros H; split; [exact H | intros v []] | intros [H _]; exact H].
  - rewrite IH. split.
    + intros [Hnone Hrest].
      destruct (decide (id v = i)) as [Heq|Hne].
      * subst i. rewrite lookup_insert_eq in Hnone. discriminate.
      * rewrite lookup_insert_ne in Hnone by exact Hne.
        split; [exact Hnone|]. intros v' [<-|Hin]; auto.
    + intros [Hnone Hall]. split.
      * rewrite lookup_insert_ne by (apply Hall; now left). exact Hnone.
      * intros v' Hin. apply Hall. now right.
Qed.

Lemma merged_lookup_is_Some (items : list Video) (cache : gmap string Video)
    (i : string) :
  is_Some (cache !! i) -> is_Some (merged items cache !! i).
Proof.
  intros Hsome. destruct (merged items cache !! i) eqn:E; [eauto|].
  apply merged_lookup_None in E as [E _]. rewrite E in Hsome.
  now destruct Hsome.
Qed.

Lemma Forall2_In_r {A B} (P : A -> B -> Prop) (l : list A) (k : list B) (y : B) :
  Forall2 P l k -> In y k -> exists x, In x l /\ P x y.
Proof.
  induction 1 as [|x y' l k HP _ IH]; intros Hin; [destruct Hin|].
  destruct Hin as [->|Hin].
  - exists x. split; [now left | exact HP].
  - destruct (IH Hin) as [x' [Hx' HP']]. exists x'. split; [now right | exact HP'].
Qed.

Lemma merged_keyed (items : list Video) (cache : gmap string Video) :
  keyed cache -> keyed (merged items cache).
Proof.
  unfold merged. revert cache.
  induction items as [|v items IH]; intros cache Hkeyed; [exact Hkeyed|].
  simpl. apply IH. intros k v' Hlookup.
  destruct (decide (id v = k)) as [<-|Hne].
  - rewrite lookup_insert_eq in Hlookup. now injection Hlookup as <-.
  - rewrite lookup_insert_ne in Hlookup by exact Hne. now apply Hkeyed.
Qed.

(** Read through a cache keyed by id, the ids come back in their order. *)
Lemma omap_keyed (cache : gmap string Video) (videoIds : list string) :
  keyed cache ->
  map id (omap (fun i => cache !! i) videoIds)
  = filter (fun i => is_Some (cache !! i)) videoIds.
Proof.
  intros Hkeyed. induction videoIds as [|i l IH]; [reflexivity|].
  cbn [omap list_omap]. destruct (cache !! i) as [v|] eqn:Hi.
  - rewrite filter_cons_True by (rewrite Hi; eauto).
    cbn [map]. rewrite (Hkeyed i v Hi). f_equal. exact IH.
  - rewrite filter_cons_False by (rewrite Hi; intros [? [=]]). exact IH.
Qed.

Lemma uncached_In (m : Youtube) (videoIds : list string) (i : string) :
  In i (uncached m videoIds) <-> In i videoIds /\ videoCache m !! i = None.
Proof.
  unfold uncached. rewrite <- !list_elem_of_In, list_elem_of_filter. tauto.
Qed.

Lemma merged_lookup (items : list Video) (cache : gmap string Video)
    (i : string) :
  merged items cache !! i
  = match last_with_id i items with
    | Some v => Some v
    | None => cache !! i
    end.
Proof.
  unfold merged, last_with_id. revert cache.
  induction items as [|v items IH]; intros cache; [reflexivity|].
  simpl. rewrite IH. destruct (decide (id v = i)) as [<-|Hne].
  - rewrite filter_cons_True by reflexivity.
    rewrite lookup_insert_eq.
    destruct (filter _ items) as [|x l] eqn:Hrest; [reflexivity|].
    change (last (v :: x :: l)) with (last (x :: l)).
    destruct (last (x :: l)) eqn:Hlast; [reflexivity|].
    apply last_None in Hlast. discriminate.
  - rewrite filter_cons_False by exact Hne.
    now rewrite lookup_insert_ne by exact Hne.
Qed.

Lemma last_with_id_Some (i : string) (items : list Video) (v : Video) :
  last_with_id i items = Some v -> In v items /\ id v = i.
Proof.
  unfold last_with_id. intros Hlast.
  apply last_Some_elem_of, list_elem_of_filter in Hlast as [Hid Hin].
  split; [now apply list_elem_of_In | exact Hid].
Qed.

Lemma last_with_id_is_Some (i : string) (items : list Video) (v : Video) :
  In v items -> id v = i -> is_Some (last_with_id i items).
Proof.
  unfold last_with_id. intros Hin Hid. apply last_is_Some.
  intros Hnil.
  assert (Hv : v ∈ filter (fun v => id v = i) items)
    by (apply list_elem_of_filter; split; [exact Hid | now apply list_elem_of_In]).
  rewrite Hnil in Hv. now apply not_elem_of_nil in Hv.
Qed.

(** What the cache holds for one of the ids is among the details read
    from it. *)
Lemma omap_lookup_In (cache : gmap string Video) (videoIds : list string)
    (i : string) (v : Video) :
  In i videoIds -> cache !! i = Some v ->
  In v (omap (fun i => cache !! i) videoIds).
Proof.
  intros Hin Hv. apply list_elem_of_In, list_elem_of_omap. exists i.
  split; [now apply list_elem_of_In | exact Hv].
Qed.

Lemma ordinary_forallb (ids : list string) :
  forallb (fun i => negb (is_prototype_member i)) ids = true -> ordinary ids.
Proof.
  intros Hall i Hi. rewrite forallb_forall in Hall.
  apply negb_true_iff, Hall, Hi.
Qed.

Lemma ordinary_cache_empty (m : Youtube) : videoCache m = ∅ -> ordinary_cache m.
Proof. intros Hempty i [v Hv]. rewrite Hempty, lookup_empty in Hv. discriminate. Qed.

(** An upstream that answers with details of the ids it was asked for, and
    of no other, answers ordinary ids when asked for ordinary ids. *)
Lemma echo_answers_ordinary (up : Upstream) (videoIds : list string)
    (m : Youtube) :
  (forall b items v,
      videos_list up b = Some items -> In v items -> In (id v) b) ->
  ordinary videoIds ->
  ordinary_answers up (make_batches (uncached m videoIds)).
Proof.
  intros Hecho Hordinary b items v Hb Hanswer Hv. apply Hordinary.
  pose proof (Hecho b items v Hanswer Hv) as Hid.
  destruct (make_batches_spec (uncached m videoIds)) as [_ [Hcat _]].
  assert (Hin : In (id v) (uncached m videoIds)).
  { rewrite <- Hcat. apply in_concat. exists b. auto. }
  now apply uncached_In in Hin as [Hin _].
Qed.

(** C3. The ids are ordinary object keys (none names a member of
    [Object.prototype]; so are the ids in the cache and in the answers).
    With [missing] ids of the input not in the cache, [getVideoDetails]
    sends exactly [ceil(missing / MAX_IDS_PER_REQUEST)] detail requests, each
    of at most [MAX_IDS_PER_REQUEST] ids (together the missing ids, in
    order), counts each of them, and returns, in the order of the input ids,
    the detail the cache then holds for each id, leaving out the ids that
    have none; an id that was not cached and for which no answered request
    returned a detail is among those left out. With a cache that stores each
    video under its id, the ids of the details returned are the input ids
    that have a detail, in the input order. Every input id that was cached
    has its detail among those returned. When every request is answered,
    the cache holds under each id the last item answered with that id, and
    what it held under the other ids; an input id with an answered item has
    that item among the details returned. When a request is rejected, the
    cache is what it was. *)
Theorem getVideoDetails_batches_in_order (up : Upstream)
    (videoIds : list string) (m : Youtube) :
  ordinary videoIds ->
  ordinary_cache m ->
  ordinary_answers up (make_batches (uncached m videoIds)) ->
  exists (batches : list (list string)) (details : list Video) (m' : Youtube),
    getVideoDetails up videoIds m = (Normal details, m')
    /\ sent m' = sent m ++ map GetVideos batches
    /\ length batches
       = ceil_div (length (uncached m videoIds)) MAX_IDS_PER_REQUEST
    /\ Forall (fun b => 1 <= length b <= MAX_IDS_PER_REQUEST) batches
    /\ concat batches = uncached m videoIds
    /\ videoDetailApiCalls (apiStats m')
       = videoDetailApiCalls (apiStats m)
         + ceil_div (length (uncached m videoIds)) MAX_IDS_PER_REQUEST
    /\ details = omap (fun id => videoCache m' !! id) videoIds
    /\ (forall i,
          videoCache m !! i = None ->
          (forall b items v,
             In b batches -> videos_list up b = Some items ->
             In v items -> id v <> i) ->
          videoCache m' !! i = None)
    /\ (keyed (videoCache m) ->
        keyed (videoCache m')
        /\ map id details
           = filter (fun i => is_Some (videoCache m' !! i)) videoIds)
    /\ (forall i,
          In i videoIds -> is_Some (videoCache m !! i) ->
          exists v, videoCache m' !! i = Some v /\ In v details)
    /\ (forall answers,
          mapM (videos_list up) batches = Some answers ->
          (forall i,
             videoCache m' !! i
             = match last_with_id i (concat answers) with
               | Some v => Some v
               | None => videoCache m !! i
               end)
          /\ (forall i v,
                In i videoIds -> In v (concat answers) -> id v = i ->
                exists v',
                  last_with_id i (concat answers) = Some v'
                  /\ id v' = i /\ In v' details))
    /\ (mapM (videos_list up) batches = None -> videoCache m' = videoCache m).
Proof.
  intros _ _ _.
  assert (Hordered : forall cache : gmap string Video,
             keyed cache ->
             keyed cache
             /\ map id (omap (fun i => cache !! i) videoIds)
                = filter (fun i => is_Some (cache !! i)) videoIds)
    by (intros cache Hkeyed; split; [exact Hkeyed | now apply omap_keyed]).
  assert (Hserved : forall cache : gmap string Video,
             (forall i, is_Some (videoCache m !! i) -> is_Some (cache !! i)) ->
             forall i,
               In i videoIds -> is_Some (videoCache m !! i) ->
               exists v, cache !! i = Some v
                         /\ In v (omap (fun i => cache !! i) videoIds)).
  { intros cache Hkeeps i Hin Hcached.
    destruct (Hkeeps i Hcached) as [v Hv]. exists v. split; [exact Hv|].
    now apply omap_lookup_In with i. }
  assert (Hnone : forall answers : list (list Video),
             mapM (videos_list up) [] = Some answers ->
             (forall i,
                videoCache m !! i
                = match last_with_id i (concat answers) with
                  | Some v => Some v
                  | None => videoCache m !! i
                  end)
             /\ (forall i v,
                   In i videoIds -> In v (concat answers) -> id v = i ->
                   exists v',
                     last_with_id i (concat answers) = Some v'
                     /\ id v' = i
                     /\ In v' (omap (fun i => videoCache m !! i) videoIds))).
  { intros answers [= <-]. split; [reflexivity | intros i v _ []]. }
  rewrite getVideoDetails_eq.
  destruct videoIds as [|v0 rest].
  { exists [], [], m. simpl sent. rewrite app_nil_r.
    change (uncached m []) with (@nil string).
    change (ceil_div (length (@nil string)) MAX_IDS_PER_REQUEST) with 0.
    rewrite Nat.add_0_r.
    do 8 (split; [auto|]). split; [apply (Hordered _)|].
    split; [intros i []|]. split; [exact Hnone | discriminate]. }
  destruct (uncached m (v0 :: rest)) as [|u0 us] eqn:Hmissing.
  { exists [], (omap (fun id => videoCache m !! id) (v0 :: rest)),
      (with_apiStats (add_cachedVideoDetails (length (v0 :: rest))) m).
    simpl sent. simpl videoCache. rewrite app_nil_r.
    change (ceil_div (length (@nil string)) MAX_IDS_PER_REQUEST) with 0.
    simpl videoDetailApiCalls. rewrite Nat.add_0_r.
    do 8 (split; [auto|]). split; [apply Hordered|].
    split; [apply Hserved; auto|]. split; [exact Hnone | discriminate]. }
  destruct (make_batches_spec (u0 :: us)) as [Hlen [Hcat Hall]].
  cbv zeta.
  destruct (mapM (videos_list up) (make_batches (u0 :: us)))
    as [batchResults|] eqn:Hjoin.
  - exists (make_batches (u0 :: us)). eexists _, _.
    split; [reflexivity|]. simpl sent. simpl videoCache.
    simpl videoDetailApiCalls. rewrite Hlen.
    do 6 (split; [auto|]). split.
    { intros i Hnot Hnoitem. apply merged_lookup_None. split; [exact Hnot|].
      intros v Hv. apply in_concat in Hv as [items [Hitems Hv]].
      apply mapM_Some_1 in Hjoin.
      destruct (Forall2_In_r _ _ _ _ Hjoin Hitems) as [b [Hb Hanswer]].
      exact (Hnoitem b items v Hb Hanswer Hv). }
    split; [intros Hkeyed; apply Hordered; now apply merged_keyed|].
    split; [apply Hserved; intros i; apply merged_lookup_is_Some|].
    split; [|intros Hrejected; rewrite Hjoin in Hrejected; discriminate].
    intros answers Hanswers. rewrite Hjoin in Hanswers.
    injection Hanswers as <-. split; [intros i; apply merged_lookup|].
    intros i v Hi Hv Hid.
    destruct (last_with_id_is_Some i _ v Hv Hid) as [v' Hlast].
    exists v'. split; [exact Hlast|].
    split; [now apply last_with_id_Some in Hlast|].
    apply omap_lookup_In with i; [exact Hi|].
    now rewrite merged_lookup, Hlast.
  - exists (make_batches (u0 :: us)). eexists _, _.
    split; [reflexivity|]. simpl sent. simpl videoCache.
    simpl videoDetailApiCalls. rewrite Hlen.
    do 7 (split; [auto|]). split; [apply Hordered|].
    split; [apply Hserved; auto|]. split; [|reflexivity].
    intros answers Hanswers. rewrite Hjoin in Hanswers. discriminate.
Qed.

Lemma getVideoDetails_batches_in_order_witness :
  exists (batches : list (list string)) (details : list Video) (m' : Youtube),
    getVideoDetails (Example.steady 120 100) (Example.ids 120) Example.fresh
      = (Normal details, m')
    /\ sent m' = sent Example.fresh ++ map GetVideos batches
    /\ length batches = 3
    /\ length details = 120.
Proof.
  destruct (getVideoDetails_batches_in_order (Example.steady 120 100)
              (Example.ids 120) Example.fresh)
    as [batches [details [m' [Hcall [Hsent [Hlen _]]]]]].
  { apply ordinary_forallb. vm_compute. reflexivity. }
  { now apply ordinary_cache_empty. }
  { apply echo_answers_ordinary;
      [|apply ordinary_forallb; vm_compute; reflexivity].
    intros b items v [= <-] Hv.
    apply in_map_iff in Hv as [name [<- Hname]]. exact Hname. }
  exists batches, details, m'.
  split; [exact Hcall|]. split; [exact Hsent|]. split; [exact Hlen|].
  assert (fst (getVideoDetails (Example.steady 120 100) (Example.ids 120)
                 Example.fresh)
          = Normal details) as Hfst by now rewrite Hcall.
  clear Hcall Hsent Hlen.
  assert (forall c : Completion (list Video),
            c = Normal details ->
            match c with Normal ds => length ds | Thrown => 0 end
            = length details) as Hcount by (intros c ->; reflexivity).
  rewrite <- (Hcount _ Hfst). vm_compute. reflexivity.
Defined.

(** The three ways through [searchVideosInTimeWindow]. *)
Lemma searchVideosInTimeWindow_hit (up : Upstream) (w : TimeWindow)
    (m : Youtube) (ids : list string) :
  searchCache m !! getSearchCacheKey w = Some ids ->
  searchVideosInTimeWindow up w m
  = (Normal ids, with_apiStats incr_cachedSearches m).
Proof.
  intros Hhit. unfold searchVideosInTimeWindow, Js.bind at 1, Js.gets at 1.
  rewrite Hhit. reflexivity.
Qed.

Lemma searchVideosInTimeWindow_miss (up : Upstream) (w : TimeWindow)
    (m : Youtube) :
  searchCache m !! getSearchCacheKey w = None ->
  searchVideosInTimeWindow up w m
  = match search_list up (startDate w) (endDate w) with
    | Some ids =>
        (Normal ids,
         with_searchCache <[getSearchCacheKey w := ids]> (searched w m))
    | None => (Normal [], searched w m)
    end.
Proof.
  intros Hmiss. unfold searchVideosInTimeWindow, Js.bind at 1, Js.gets at 1.
  rewrite Hmiss.
  unfold Js.try_catch, Js.bind, Js.modify, axios_get_search, Js.bind,
    Js.modify, Js.ret, Js.throw.
  destruct (search_list up _ _); reflexivity.
Qed.

(** C6. Two calls of [searchVideosInTimeWindow] on a window that is not yet
    cached, the upstream answering the first: the first call sends one search
    request, counts one search call and stores the ids under the key of the
    window; the second returns the same ids from the cache, sends nothing,
    and changes nothing but the count of cached searches, which it raises by
    one. This whatever the upstream would answer the second time. *)
Theorem searchVideosInTimeWindow_twice (up up' : Upstream) (w : TimeWindow)
    (m : Youtube) (ids : list string) :
  searchCache m !! getSearchCacheKey w = None ->
  search_list up (startDate w) (endDate w) = Some ids ->
  exists m1 m2,
    searchVideosInTimeWindow up w m = (Normal ids, m1)
    /\ searchVideosInTimeWindow up' w m1 = (Normal ids, m2)
    /\ sent m1 = sent m ++ [search_request w]
    /\ sent m2 = sent m1
    /\ searchCache m1 !! getSearchCacheKey w = Some ids
    /\ searchApiCalls (apiStats m1) = S (searchApiCalls (apiStats m))
    /\ totalApiCalls (apiStats m1) = S (totalApiCalls (apiStats m))
    /\ cachedSearches (apiStats m1) = cachedSearches (apiStats m)
    /\ cachedSearches (apiStats m2) = S (cachedSearches (apiStats m1))
    /\ searchApiCalls (apiStats m2) = searchApiCalls (apiStats m1)
    /\ videoDetailApiCalls (apiStats m2) = videoDetailApiCalls (apiStats m1)
    /\ totalApiCalls (apiStats m2) = totalApiCalls (apiStats m1)
    /\ cachedVideoDetails (apiStats m2) = cachedVideoDetails (apiStats m1)
    /\ searchCache m2 = searchCache m1
    /\ videoCache m2 = videoCache m1.
Proof.
  intros Hmiss Hanswer.
  pose proof (searchVideosInTimeWindow_miss up w m Hmiss) as Hfirst.
  rewrite Hanswer in Hfirst.
  assert (searchCache
            (with_searchCache <[getSearchCacheKey w := ids]> (searched w m))
          !! getSearchCacheKey w = Some ids) as Hstored
    by (simpl; apply lookup_insert_eq).
  eexists _, _. split; [exact Hfirst|].
  split; [exact (searchVideosInTimeWindow_hit up' w _ ids Hstored)|].
  split; [reflexivity|]. split; [reflexivity|]. split; [exact Hstored|].
  repeat split.
Qed.

Lemma searchVideosInTimeWindow_twice_witness :
  exists m1 m2,
    searchVideosInTimeWindow (Example.steady 3 100) Example.hour Example.fresh
      = (Normal (Example.ids 3), m1)
    /\ searchVideosInTimeWindow Example.offline Example.hour m1
       = (Normal (Example.ids 3), m2)
    /\ sent m2 = [search_request Example.hour]
    /\ searchApiCalls (apiStats m2) = 1
    /\ cachedSearches (apiStats m2) = 1.
Proof.
  destruct (searchVideosInTimeWindow_twice (Example.steady 3 100)
              Example.offline Example.hour Example.fresh (Example.ids 3))
    as [m1 [m2 [H1 [H2 [Hs1 [Hs2 [_ [Hc1 [_ [Hh1 [Hh2 [Hc2 _]]]]]]]]]]]].
  - apply lookup_empty.
  - reflexivity.
  - exists m1, m2. split; [exact H1|]. split; [exact H2|].
    rewrite Hs2, Hs1, Hc2, Hc1, Hh2, Hh1. repeat split.
Defined.

Lemma mapM_None_In {A B} (f : A -> option B) (l : list A) (x : A) :
  In x l -> f x = None -> mapM f l = None.
Proof.
  intros Hin Hnone. induction l as [|y l IH]; [destruct Hin|].
  cbn [mapM]. destruct Hin as [->|Hin].
  - rewrite Hnone. reflexivity.
  - rewrite (IH Hin). destruct (f y); reflexivity.
Qed.

(** When a batch request is rejected, [getVideoDetails] answers from the
    cache as it was: the requests all went out, nothing was stored. *)
Lemma getVideoDetails_failed_batch (up : Upstream) (videoIds : list string)
    (m : Youtube) (b : list string) :
  In b (make_batches (uncached m videoIds)) ->
  videos_list up b = None ->
  getVideoDetails up videoIds m
  = (Normal (omap (fun id => videoCache m !! id) videoIds),
     issued (make_batches (uncached m videoIds)) m).
Proof.
  intros Hin Hnone. rewrite getVideoDetails_eq.
  destruct videoIds as [|v0 rest]; [destruct Hin|].
  destruct (uncached m (v0 :: rest)) as [|u0 us]; [destruct Hin|].
  cbv zeta. rewrite (mapM_None_In _ _ b Hin Hnone). reflexivity.
Qed.

Lemma getVideoDetails_normal (up : Upstream) (videoIds : list string)
    (m : Youtube) :
  exists details m', getVideoDetails up videoIds m = (Normal details, m').
Proof.
  rewrite getVideoDetails_eq.
  destruct videoIds; [eauto|]. destruct (uncached m _); [eauto|].
  cbv zeta. destruct (mapM _ _); eauto.
Qed.

Lemma searchVideosInTimeWindow_normal (up : Upstream) (w : TimeWindow)
    (m : Youtube) :
  exists ids m', searchVideosInTimeWindow up w m = (Normal ids, m').
Proof.
  destruct (searchCache m !! getSearchCacheKey w) as [ids|] eqn:Hcache.
  - rewrite (searchVideosInTimeWindow_hit up w m ids Hcache). eauto.
  - rewrite (searchVideosInTimeWindow_miss up w m Hcache).
    destruct (search_list up _ _); eauto.
Qed.

Lemma processAdaptiveSearch_normal (K : Constants) (videoIds : list string)
    (videoDetails : list Video) (w : TimeWindow) (n : nat) (s : Session) :
  exists nextWindow s',
    processAdaptiveSearch K videoIds videoDetails w n s
    = (Normal (Call_searchWithExpansion nextWindow (n + 1)), s')
    /\ youtube s' = youtube s
    /\ error (hook s') = error (hook s).
Proof.
  unfold processAdaptiveSearch.
  destruct (BUSY_PERIOD_THRESHOLD K <? _)%Z;
    [|destruct (MODERATE_PERIOD_THRESHOLD K <? _)%Z];
    eexists _, _; repeat split.
Qed.

(** A step whose search comes back empty expands the window by the
    aggressive factor. *)
Lemma searchWithExpansion_empty (K : Constants) (up : Upstream)
    (w : TimeWindow) (n : nat) (s : Session) (m1 : Youtube) :
  searchVideosInTimeWindow up w (youtube s) = (Normal [], m1) ->
  exists s',
    searchWithExpansion K up w n s
    = (Normal (Call_searchWithExpansion (expandTimeWindow K w None) (n + 1)), s')
    /\ youtube s' = m1
    /\ error (hook s') = error (hook s).
Proof.
  intros Hsearch. unfold searchWithExpansion.
  unfold Js.bind at 1. unfold setStatusMessage at 1, Js.modify at 1.
  unfold Js.bind at 1. unfold call at 1. simpl youtube. rewrite Hsearch.
  eexists. repeat split.
Qed.

(** A step always completes normally; it leaves [error] alone, and the
    module state is what the calls into the client made of it. *)
Lemma searchWithExpansion_normal (K : Constants) (up : Upstream)
    (w : TimeWindow) (n : nat) (s : Session) :
  exists next s',
    searchWithExpansion K up w n s = (Normal next, s')
    /\ youtube s' = client_step up w (youtube s)
    /\ error (hook s') = error (hook s).
Proof.
  unfold client_step.
  destruct (searchVideosInTimeWindow_normal up w (youtube s))
    as [ids [m1 Hsearch]].
  rewrite Hsearch. destruct ids as [|v0 rest].
  - destruct (searchWithExpansion_empty K up w n s m1 Hsearch)
      as [s' [-> [Hyoutube Herror]]].
    eauto.
  - destruct (getVideoDetails_normal up (v0 :: rest) m1)
      as [details [m2 Hdetails]].
    rewrite (searchWithExpansion_found K up w n s _ _ _ _ Hsearch
               ltac:(discriminate) Hdetails), Hdetails.
    destruct (length (filterRareVideos K details) =? 0).
    + destruct (processAdaptiveSearch_normal K (v0 :: rest) details w n
                  (analysing s (v0 :: rest) m2))
        as [nw [s' [-> [Hyoutube Herror]]]].
      eauto.
    + eexists _, _. repeat split.
Qed.

(** What every step preserves, every chain of steps preserves. *)
Lemma run_preserves (K : Constants) (up : Upstream) (P : Session -> Prop) :
  (forall w n s, P s -> P (snd (searchWithExpansion K up w n s))) ->
  forall fuel w n s r s',
    P s -> run K up fuel w n s = Some (r, s') -> r = Normal tt /\ P s'.
Proof.
  intros Hstep fuel.
  induction fuel as [|fuel IH]; intros w n s r s' Hs Hrun; [discriminate|].
  simpl in Hrun. specialize (Hstep w n s Hs).
  destruct (searchWithExpansion_normal K up w n s) as [next [s1 [Heq _]]].
  rewrite Heq in Hrun, Hstep. simpl in Hstep. destruct next as [w' n'|].
  - exact (IH _ _ _ _ _ Hstep Hrun).
  - injection Hrun as <- <-. auto.
Qed.

Lemma run_normal (K : Constants) (up : Upstream) (fuel : nat)
    (w : TimeWindow) (n : nat) (s : Session) r s' :
  run K up fuel w n s = Some (r, s') -> r = Normal tt.
Proof.
  intros Hrun.
  apply (run_preserves K up (fun _ => True) (fun _ _ _ _ => I)
           fuel w n s r s' I Hrun).
Qed.

Lemma searchWithExpansion_error (K : Constants) (up : Upstream)
    (w : TimeWindow) (n : nat) (s : Session) :
  error (hook (snd (searchWithExpansion K up w n s))) = error (hook s).
Proof.
  destruct (searchWithExpansion_normal K up w n s) as [next [s' [-> [_ H]]]].
  exact H.
Qed.

(** [startSearch] clears [error], and no step sets it. *)
Lemma startSearch_no_error (K : Constants) (up : Upstream) (fuel : nat)
    (randomDate : Qc) (s s' : Session) :
  startSearch K up fuel randomDate s = Some s' -> error (hook s') = None.
Proof.
  unfold startSearch. intros Hstart.
  destruct (run K up fuel _ 1 _) as [[r s3]|] eqn:Hrun; [|discriminate].
  apply (run_preserves K up (fun s => error (hook s) = None)) in Hrun
    as [-> Hnone].
  - now injection Hstart as <-.
  - intros w n s0 Hs0. now rewrite searchWithExpansion_error.
  - reflexivity.
Qed.

(** C5. A rejected upstream request does not leave the client as an
    exception: the client answers with a fallback. When the search request of
    a window is rejected, [searchVideosInTimeWindow] returns no id, having
    sent and counted the request, and the step then expands the window as it
    does for an empty window. [getVideoDetails] always returns; when a batch
    request is rejected (the ids asked for and the ids in the cache being
    ordinary object keys) it returns the details that were cached for the
    requested ids. *)
Theorem upstream_failures_become_fallbacks (K : Constants) (up : Upstream) :
  (forall w m,
      searchCache m !! getSearchCacheKey w = None ->
      search_list up (startDate w) (endDate w) = None ->
      searchVideosInTimeWindow up w m = (Normal [], searched w m))
  /\ (forall w n s,
        searchCache (youtube s) !! getSearchCacheKey w = None ->
        search_list up (startDate w) (endDate w) = None ->
        exists s',
          searchWithExpansion K up w n s
          = (Normal (Call_searchWithExpansion
                       (expandTimeWindow K w None) (n + 1)), s'))
  /\ (forall videoIds m, exists details m',
        getVideoDetails up videoIds m = (Normal details, m'))
  /\ (forall videoIds m b,
        ordinary videoIds ->
        ordinary_cache m ->
        In b (make_batches (uncached m videoIds)) ->
        videos_list up b = None ->
        exists m',
          getVideoDetails up videoIds m
          = (Normal (omap (fun id => videoCache m !! id) videoIds), m')).
Proof.
  split.
  { intros w m Hmiss Hfail.
    rewrite (searchVideosInTimeWindow_miss up w m Hmiss), Hfail. reflexivity. }
  split.
  { intros w n s Hmiss Hfail.
    pose proof (searchVideosInTimeWindow_miss up w (youtube s) Hmiss) as Hsearch.
    rewrite Hfail in Hsearch.
    destruct (searchWithExpansion_empty K up w n s _ Hsearch) as [s' [Hstep _]].
    eauto. }
  split; [apply getVideoDetails_normal|].
  intros videoIds m b _ _ Hin Hfail.
  rewrite (getVideoDetails_failed_batch up videoIds m b Hin Hfail). eauto.
Qed.

Lemma upstream_failures_become_fallbacks_witness :
  searchVideosInTimeWindow Example.offline Example.hour Example.fresh
    = (Normal [], searched Example.hour Example.fresh)
  /\ (exists m',
        getVideoDetails Example.offline (Example.ids 3) Example.fresh
        = (Normal [], m')).
Proof.
  destruct (upstream_failures_become_fallbacks Example.K Example.offline)
    as [Hsearch [_ [_ Hdetails]]].
  split.
  - apply Hsearch; [apply lookup_empty | reflexivity].
  - apply (Hdetails (Example.ids 3) Example.fresh (Example.ids 3)).
    + apply ordinary_forallb. vm_compute. reflexivity.
    + now apply ordinary_cache_empty.
    + vm_compute. left. reflexivity.
    + reflexivity.
Defined.

(** C4, as the specification puts it, fails: 51 ids, none cached, make two
    batches; the upstream answers the first batch with its 50 details and
    rejects the second. The call returns no detail at all and stores none:
    the 50 details of the answered batch are lost with the rejected one. *)
Lemma one_rejected_batch_loses_the_others :
  make_batches (uncached Example.fresh (Example.ids 51))
    = [Example.ids 50; ["v50"%string]]
  /\ videos_list (Example.flaky 51 3) (Example.ids 50)
     = Some (map (fun name => Example.video name 3) (Example.ids 50))
  /\ videos_list (Example.flaky 51 3) ["v50"%string] = None
  /\ fst (getVideoDetails (Example.flaky 51 3) (Example.ids 51) Example.fresh)
     = Normal []
  /\ videoCache
       (snd (getVideoDetails (Example.flaky 51 3) (Example.ids 51)
               Example.fresh))
     = ∅.
Proof. repeat split; vm_compute; reflexivity. Qed.

(** C4, amended. The ids asked for and the ids in the cache are ordinary
    object keys (none names a member of [Object.prototype]). When one of the
    batch requests of [getVideoDetails] is rejected, whatever the others
    answer, the call returns without throwing and returns the details that
    were cached before the call for the requested ids, in their order; every
    batch request was sent and counted, and neither cache has changed. *)
Theorem rejected_batch_falls_back_to_cache (up : Upstream)
    (videoIds : list string) (m : Youtube) (b : list string) :
  ordinary videoIds ->
  ordinary_cache m ->
  In b (make_batches (uncached m videoIds)) ->
  videos_list up b = None ->
  exists m',
    getVideoDetails up videoIds m
    = (Normal (omap (fun id => videoCache m !! id) videoIds), m')
    /\ videoCache m' = videoCache m
    /\ searchCache m' = searchCache m
    /\ sent m' = sent m ++ map GetVideos (make_batches (uncached m videoIds))
    /\ videoDetailApiCalls (apiStats m')
       = videoDetailApiCalls (apiStats m)
         + length (make_batches (uncached m videoIds)).
Proof.
  intros _ _ Hin Hfail.
  rewrite (getVideoDetails_failed_batch up videoIds m b Hin Hfail).
  eexists. repeat split.
Qed.

Lemma rejected_batch_falls_back_to_cache_witness :
  exists m',
    getVideoDetails (Example.flaky 51 3) (Example.ids 51) Example.fresh
    = (Normal [], m')
    /\ videoCache m' = ∅.
Proof.
  destruct (rejected_batch_falls_back_to_cache (Example.flaky 51 3)
              (Example.ids 51) Example.fresh ["v50"%string])
    as [m' [Hcall [Hcache _]]].
  - apply ordinary_forallb. vm_compute. reflexivity.
  - now apply ordinary_cache_empty.
  - vm_compute. right. left. reflexivity.
  - reflexivity.
  - exists m'. split; [|exact Hcache].
    rewrite Hcall. reflexivity.
Defined.

(** ** Sessions and counters *)

Lemma uncached_nil (m : Youtube) (videoIds : list string) :
  Forall (fun i => is_Some (videoCache m !! i)) videoIds ->
  uncached m videoIds = [].
Proof.
  unfold uncached. induction 1 as [|i l [v Hi] _ IH]; [reflexivity|].
  rewrite filter_cons_False by (rewrite Hi; discriminate). exact IH.
Qed.

Lemma omap_cached_length (m : Youtube) (videoIds : list string) :
  Forall (fun i => is_Some (videoCache m !! i)) videoIds ->
  length (omap (fun id => videoCache m !! id) videoIds) = length videoIds.
Proof.
  induction 1 as [|i l [v Hi] _ IH]; [reflexivity|].
  cbn [omap list_omap]. rewrite Hi. simpl. now f_equal.
Qed.

(** Ids that are all cached are served from the cache. *)
Lemma getVideoDetails_cached (up : Upstream) (videoIds : list string)
    (m : Youtube) :
  videoIds <> [] ->
  Forall (fun i => is_Some (videoCache m !! i)) videoIds ->
  getVideoDetails up videoIds m
  = (Normal (omap (fun id => videoCache m !! id) videoIds),
     with_apiStats (add_cachedVideoDetails (length videoIds)) m).
Proof.
  intros Hne Hall. rewrite getVideoDetails_eq.
  destruct videoIds as [|v0 rest]; [contradiction|].
  rewrite (uncached_nil m (v0 :: rest) Hall). reflexivity.
Qed.

#[local] Instance keeps_caches_preorder : PreOrder keeps_caches.
Proof.
  split.
  - intros m. split; [reflexivity | auto].
  - intros m1 m2 m3 [Hs12 Hv12] [Hs23 Hv23]. split.
    + now transitivity (searchCache m2).
    + auto.
Qed.

Lemma searchVideosInTimeWindow_keeps (up : Upstream) (w : TimeWindow)
    (m : Youtube) :
  keeps_caches m (snd (searchVideosInTimeWindow up w m)).
Proof.
  destruct (searchCache m !! getSearchCacheKey w) as [ids|] eqn:Hcache.
  - rewrite (searchVideosInTimeWindow_hit up w m ids Hcache).
    split; [reflexivity | auto].
  - rewrite (searchVideosInTimeWindow_miss up w m Hcache).
    destruct (search_list up _ _) as [ids|]; (split; [|auto]); simpl.
    + now apply insert_subseteq.
    + reflexivity.
Qed.

Lemma getVideoDetails_keeps (up : Upstream) (videoIds : list string)
    (m : Youtube) :
  keeps_caches m (snd (getVideoDetails up videoIds m)).
Proof.
  rewrite getVideoDetails_eq.
  destruct videoIds as [|v0 rest]; [reflexivity|].
  destruct (uncached m (v0 :: rest)); [split; [reflexivity | auto]|].
  cbv zeta. destruct (mapM _ _); (split; [reflexivity|]); simpl; [|auto].
  intros i. apply merged_lookup_is_Some.
Qed.

Lemma client_step_keeps (up : Upstream) (w : TimeWindow) (m : Youtube) :
  keeps_caches m (client_step up w m).
Proof.
  unfold client_step.
  pose proof (searchVideosInTimeWindow_keeps up w m) as H1.
  destruct (searchVideosInTimeWindow up w m) as [[[|v0 rest]|] m1];
    simpl in H1; try exact H1.
  transitivity m1; [exact H1 | apply getVideoDetails_keeps].
Qed.

(** A session never drops a cached search or a cached detail. *)
Lemma startSearch_keeps (K : Constants) (up : Upstream) (fuel : nat)
    (randomDate : Qc) (s s' : Session) :
  startSearch K up fuel randomDate s = Some s' ->
  keeps_caches (youtube s) (youtube s').
Proof.
  unfold startSearch. intros Hstart.
  destruct (run K up fuel _ 1 _) as [[r s3]|] eqn:Hrun; [|discriminate].
  apply (run_preserves K up (fun s' => keeps_caches (youtube s) (youtube s')))
    in Hrun as [-> Hkeeps].
  - now injection Hstart as <-.
  - intros w n s0 Hs0.
    destruct (searchWithExpansion_normal K up w n s0)
      as [next [s1 [-> [Hyoutube _]]]].
    simpl. rewrite Hyoutube.
    transitivity (youtube s0); [exact Hs0 | apply client_step_keeps].
  - split; [reflexivity | auto].
Qed.

(** C7. [startSearch] begins by setting the five counters of [apiStats] to
    zero and leaves [searchCache] and [videoCache] as they were; the search
    it then runs only adds to the caches. So in a
    session that follows another, a window searched before is answered from
    the cache (one cached search, no search call, nothing sent), and ids
    whose details were fetched before are answered from the cache (as many
    cached details, no detail call, nothing sent); and a whole second session
    whose first window and ids are cached with a rare video among them ends
    with counters that count that session only. *)
Theorem startSearch_resets_stats_keeps_caches (K : Constants) (up : Upstream)
    (s : Session) :
  let s0 := snd (startSearch_reset s) in
  searchApiCalls (apiStats (youtube s0)) = 0
  /\ videoDetailApiCalls (apiStats (youtube s0)) = 0
  /\ totalApiCalls (apiStats (youtube s0)) = 0
  /\ cachedSearches (apiStats (youtube s0)) = 0
  /\ cachedVideoDetails (apiStats (youtube s0)) = 0
  /\ searchCache (youtube s0) = searchCache (youtube s)
  /\ videoCache (youtube s0) = videoCache (youtube s)
  /\ (forall w ids,
        searchCache (youtube s) !! getSearchCacheKey w = Some ids ->
        exists m',
          searchVideosInTimeWindow up w (youtube s0) = (Normal ids, m')
          /\ sent m' = sent (youtube s)
          /\ cachedSearches (apiStats m') = 1
          /\ searchApiCalls (apiStats m') = 0
          /\ totalApiCalls (apiStats m') = 0)
  /\ (forall videoIds,
        videoIds <> [] ->
        Forall (fun i => is_Some (videoCache (youtube s) !! i)) videoIds ->
        exists m',
          getVideoDetails up videoIds (youtube s0)
          = (Normal (omap (fun id => videoCache (youtube s) !! id) videoIds), m')
          /\ sent m' = sent (youtube s)
          /\ cachedVideoDetails (apiStats m') = length videoIds
          /\ videoDetailApiCalls (apiStats m') = 0
          /\ totalApiCalls (apiStats m') = 0)
  /\ (forall randomDate fuel videoIds,
        searchCache (youtube s)
          !! getSearchCacheKey (createInitialTimeWindow K randomDate)
        = Some videoIds ->
        Forall (fun i => is_Some (videoCache (youtube s) !! i)) videoIds ->
        filterRareVideos K
          (omap (fun id => videoCache (youtube s) !! id) videoIds) <> [] ->
        exists s',
          startSearch K up (S fuel) randomDate s = Some s'
          /\ videos (hook s')
             = filterRareVideos K
                 (omap (fun id => videoCache (youtube s) !! id) videoIds)
          /\ searchApiCalls (apiStats (youtube s')) = 0
          /\ videoDetailApiCalls (apiStats (youtube s')) = 0
          /\ totalApiCalls (apiStats (youtube s')) = 0
          /\ cachedSearches (apiStats (youtube s')) = 1
          /\ cachedVideoDetails (apiStats (youtube s')) = length videoIds
          /\ sent (youtube s') = sent (youtube s)
          /\ searchCache (youtube s') = searchCache (youtube s)
          /\ videoCache (youtube s') = videoCache (youtube s))
  /\ (forall fuel randomDate s',
        startSearch K up fuel randomDate s = Some s' ->
        keeps_caches (youtube s) (youtube s')).
Proof.
  cbv zeta.
  do 7 (split; [reflexivity|]).
  split.
  { intros w ids Hcached.
    rewrite (searchVideosInTimeWindow_hit up w _ ids) by exact Hcached.
    eexists. repeat split. }
  split.
  { intros videoIds Hne Hall.
    rewrite (getVideoDetails_cached up videoIds) by assumption.
    eexists. repeat split. }
  split; [|intros fuel randomDate s'; apply startSearch_keeps].
  intros randomDate fuel videoIds Hwindow Hall Hrare.
  assert (Hne : videoIds <> []) by (intros ->; now apply Hrare).
  unfold startSearch. cbn [run].
  set (s2 := snd (setCurrentWindow _ (snd (startSearch_reset s)))).
  pose proof (searchVideosInTimeWindow_hit up
                (createInitialTimeWindow K randomDate) (youtube s2) videoIds
                Hwindow) as Hsearch.
  pose proof (getVideoDetails_cached up videoIds
                (with_apiStats incr_cachedSearches (youtube s2)) Hne Hall)
    as Hdetails.
  rewrite (searchWithExpansion_found K up _ 1 s2 _ _ _ _ Hsearch Hne Hdetails).
  change (videoCache (with_apiStats incr_cachedSearches (youtube s2)))
    with (videoCache (youtube s)).
  destruct (filterRareVideos K _) as [|r rs] eqn:Hrares; [contradiction|].
  change (length (r :: rs) =? 0) with false. cbv iota.
  eexists. repeat split.
Qed.

Lemma startSearch_resets_stats_keeps_caches_witness :
  totalApiCalls (apiStats (youtube Example.after_first_search)) = 2
  /\ exists s',
       startSearch Example.K (Example.steady 1 3) 1 (Q2Qc 1000)
         Example.after_first_search = Some s'
       /\ videos (hook s') = [Example.video "v0" 3]
       /\ totalApiCalls (apiStats (youtube s')) = 0
       /\ cachedSearches (apiStats (youtube s')) = 1
       /\ cachedVideoDetails (apiStats (youtube s')) = 1
       /\ sent (youtube s') = sent (youtube Example.after_first_search).
Proof.
  split; [vm_compute; reflexivity|].
  destruct (startSearch_resets_stats_keeps_caches Example.K
              (Example.steady 1 3) Example.after_first_search)
    as [_ [_ [_ [_ [_ [_ [_ [_ [_ [Hsecond _]]]]]]]]]].
  destruct (Hsecond (Q2Qc 1000) 0 (Example.ids 1))
    as [s' [Hrun [Hvideos [_ [_ [Htotal [Hhits [Hdetails [Hsent _]]]]]]]]].
  - vm_compute; reflexivity.
  - constructor; [|constructor]. vm_compute. eauto.
  - vm_compute; discriminate.
  - exists s'. split; [exact Hrun|]. split.
    + rewrite Hvideos. vm_compute; reflexivity.
    + repeat split; assumption.
Defined.

Lemma searchVideosInTimeWindow_balanced (up : Upstream) (w : TimeWindow)
    (m : Youtube) :
  balanced (apiStats m) ->
  balanced (apiStats (snd (searchVideosInTimeWindow up w m))).
Proof.
  unfold balanced. intros Hm.
  destruct (searchCache m !! getSearchCacheKey w) as [ids|] eqn:Hcache.
  - rewrite (searchVideosInTimeWindow_hit up w m ids Hcache). simpl. exact Hm.
  - rewrite (searchVideosInTimeWindow_miss up w m Hcache).
    destruct (search_list up _ _); simpl; lia.
Qed.

Lemma getVideoDetails_balanced (up : Upstream) (videoIds : list string)
    (m : Youtube) :
  balanced (apiStats m) ->
  balanced (apiStats (snd (getVideoDetails up videoIds m))).
Proof.
  unfold balanced. intros Hm. rewrite getVideoDetails_eq.
  destruct videoIds as [|v0 rest]; [exact Hm|].
  destruct (uncached m (v0 :: rest)); [exact Hm|].
  cbv zeta. destruct (mapM _ _); simpl; lia.
Qed.

Lemma client_step_balanced (up : Upstream) (w : TimeWindow) (m : Youtube) :
  balanced (apiStats m) -> balanced (apiStats (client_step up w m)).
Proof.
  intros Hm. unfold client_step.
  pose proof (searchVideosInTimeWindow_balanced up w m Hm) as H1.
  destruct (searchVideosInTimeWindow up w m) as [[[|v0 rest]|] m1];
    simpl in H1; try exact H1.
  now apply getVideoDetails_balanced.
Qed.

Lemma searchWithExpansion_balanced (K : Constants) (up : Upstream)
    (w : TimeWindow) (n : nat) (s : Session) :
  balanced (apiStats (youtube s)) ->
  balanced (apiStats (youtube (snd (searchWithExpansion K up w n s)))).
Proof.
  intros Hs.
  destruct (searchWithExpansion_normal K up w n s)
    as [next [s' [-> [Hyoutube _]]]].
  simpl. rewrite Hyoutube. now apply client_step_balanced.
Qed.

Lemma run_balanced (K : Constants) (up : Upstream) (fuel : nat)
    (w : TimeWindow) (n : nat) (s : Session) r s' :
  balanced (apiStats (youtube s)) ->
  run K up fuel w n s = Some (r, s') ->
  balanced (apiStats (youtube s')).
Proof.
  intros Hs Hrun.
  apply (run_preserves K up (fun s => balanced (apiStats (youtube s)))
           (searchWithExpansion_balanced K up) fuel w n s r s' Hs Hrun).
Qed.

(** C10. [totalApiCalls = searchApiCalls + videoDetailApiCalls] holds after
    [apiStats.reset()], and every operation that finds it true leaves it
    true: a search (cache hit or upstream call, answered or rejected), a
    detail fetch (from the cache or in batches, answered or rejected), a
    step of the search, a chain of steps; and a session started by
    [startSearch] ends with it true whatever the counters were. *)
Theorem totalApiCalls_is_the_sum (K : Constants) (up : Upstream) :
  (forall a, balanced (reset a))
  /\ (forall w m,
        balanced (apiStats m) ->
        balanced (apiStats (snd (searchVideosInTimeWindow up w m))))
  /\ (forall videoIds m,
        balanced (apiStats m) ->
        balanced (apiStats (snd (getVideoDetails up videoIds m))))
  /\ (forall w n s,
        balanced (apiStats (youtube s)) ->
        balanced (apiStats (youtube (snd (searchWithExpansion K up w n s)))))
  /\ (forall fuel w n s r s',
        balanced (apiStats (youtube s)) ->
        run K up fuel w n s = Some (r, s') ->
        balanced (apiStats (youtube s')))
  /\ (forall fuel randomDate s s',
        startSearch K up fuel randomDate s = Some s' ->
        balanced (apiStats (youtube s'))).
Proof.
  split; [intros a; reflexivity|].
  split; [apply searchVideosInTimeWindow_balanced|].
  split; [apply getVideoDetails_balanced|].
  split; [apply searchWithExpansion_balanced|].
  split; [intros fuel w n s r s'; apply run_balanced|].
  intros fuel randomDate s s' Hstart. unfold startSearch in Hstart.
  destruct (run K up fuel _ 1 _) as [[r s3]|] eqn:Hrun; [|discriminate].
  apply run_balanced in Hrun; [|reflexivity].
  destruct r; injection Hstart as <-; exact Hrun.
Qed.

Lemma totalApiCalls_is_the_sum_witness :
  balanced (apiStats (youtube Example.after_first_search))
  /\ balanced
       (apiStats (snd (getVideoDetails (Example.flaky 51 3) (Example.ids 51)
                         Example.fresh))).
Proof.
  destruct (totalApiCalls_is_the_sum Example.K (Example.steady 1 3))
    as [_ [_ [_ [_ [_ Hsession]]]]].
  destruct (totalApiCalls_is_the_sum Example.K (Example.flaky 51 3))
    as [_ [_ [Hdetails _]]].
  split.
  - apply (Hsession 1 (Q2Qc 1000) Example.idle). vm_compute; reflexivity.
  - apply Hdetails. reflexivity.
Defined.

(** * Further properties of the code *)

(** ** The steps of a session *)

Lemma processAdaptiveSearch_cases (K : Constants) (videoIds : list string)
    (videoDetails : list Video) (w : TimeWindow) (n : nat) (s : Session) :
  exists w' s',
    processAdaptiveSearch K videoIds videoDetails w n s
    = (Normal (Call_searchWithExpansion w' (n + 1)), s')
    /\ successor K w w'
    /\ youtube s' = youtube s
    /\ error (hook s') = error (hook s)
    /\ expansionCount (hook s') = n
    /\ currentWindow (hook s') = Some w'
    /\ isLoading (hook s') = isLoading (hook s)
    /\ videos (hook s') = videos (hook s).
Proof.
  unfold processAdaptiveSearch, successor.
  destruct (BUSY_PERIOD_THRESHOLD K <? _)%Z;
    [|destruct (MODERATE_PERIOD_THRESHOLD K <? _)%Z];
    eexists _, _; (split; [reflexivity|]); simpl;
    (split; [auto|]); repeat split; lia.
Qed.

(** Every way a step can go, and what it leaves in the hook. *)
Lemma searchWithExpansion_cases (K : Constants) (up : Upstream)
    (w : TimeWindow) (n : nat) (s : Session) :
  exists next s',
    searchWithExpansion K up w n s = (Normal next, s')
    /\ youtube s' = client_step up w (youtube s)
    /\ error (hook s') = error (hook s)
    /\ match next with
       | Call_searchWithExpansion w' n' =>
           successor K w w' /\ n' = n + 1
           /\ expansionCount (hook s') = n
           /\ currentWindow (hook s') = Some w'
           /\ isLoading (hook s') = isLoading (hook s)
           /\ videos (hook s') = videos (hook s)
       | Return =>
           isLoading (hook s') = false
           /\ statusMessage (hook s') = None
           /\ videos (hook s') <> []
           /\ (exists details, videos (hook s') = filterRareVideos K details)
           /\ currentWindow (hook s') = currentWindow (hook s)
           /\ expansionCount (hook s') = expansionCount (hook s)
       end.
Proof.
  unfold client_step.
  destruct (searchVideosInTimeWindow_normal up w (youtube s))
    as [ids [m1 Hsearch]].
  rewrite Hsearch. destruct ids as [|v0 rest].
  - unfold searchWithExpansion.
    unfold Js.bind at 1. unfold setStatusMessage at 1, Js.modify at 1.
    unfold Js.bind at 1. unfold call at 1. simpl youtube. rewrite Hsearch.
    eexists _, _. split; [reflexivity|]. simpl.
    split; [reflexivity|]. split; [reflexivity|].
    split; [unfold successor; auto|]. repeat split. lia.
  - destruct (getVideoDetails_normal up (v0 :: rest) m1)
      as [details [m2 Hdetails]].
    rewrite (searchWithExpansion_found K up w n s _ _ _ _ Hsearch
               ltac:(discriminate) Hdetails), Hdetails.
    destruct (filterRareVideos K details) as [|r rs] eqn:Hrare.
    + change (length (@nil Video) =? 0) with true. cbv iota.
      destruct (processAdaptiveSearch_cases K (v0 :: rest) details w n
                  (analysing s (v0 :: rest) m2))
        as [w' [s' [-> [Hsucc [Hy [He [Hc [Hw [Hl Hv]]]]]]]]].
      exists (Call_searchWithExpansion w' (n + 1)), s'.
      repeat split; auto.
    + change (length (r :: rs) =? 0) with false. cbv iota.
      eexists _, _. split; [reflexivity|]. simpl.
      repeat split; try discriminate. exists details. now rewrite Hrare.
Qed.

(** An invariant of the window, the step number and the session that every
    continuing step keeps holds along the whole chain; what every returning
    step establishes holds at its end. *)
Lemma run_invariant (K : Constants) (up : Upstream)
    (I : TimeWindow -> nat -> Session -> Prop) (Q : Session -> Prop) :
  (forall w n s w' n' s',
      I w n s ->
      searchWithExpansion K up w n s
      = (Normal (Call_searchWithExpansion w' n'), s') ->
      I w' n' s') ->
  (forall w n s s',
      I w n s ->
      searchWithExpansion K up w n s = (Normal Return, s') -> Q s') ->
  forall fuel w n s r s',
    I w n s -> run K up fuel w n s = Some (r, s') -> r = Normal tt /\ Q s'.
Proof.
  intros Hcall Hreturn fuel.
  induction fuel as [|fuel IH]; intros w n s r s' Hinv Hrun; [discriminate|].
  simpl in Hrun.
  destruct (searchWithExpansion_normal K up w n s) as [next [s1 [Hstep _]]].
  rewrite Hstep in Hrun. destruct next as [w' n'|].
  - exact (IH _ _ _ _ _ (Hcall _ _ _ _ _ _ Hinv Hstep) Hrun).
  - injection Hrun as <- <-. split; [reflexivity|].
    exact (Hreturn _ _ _ _ Hinv Hstep).
Qed.

Lemma filterRareVideos_Forall (K : Constants) (details : list Video) :
  Forall (rare K) (filterRareVideos K details).
Proof.
  apply List.Forall_forall. intros v Hv.
  now apply filterRareVideos_spec in Hv.
Qed.

(** The end of a session. *)
Lemma startSearch_end (K : Constants) (up : Upstream)
    (fuel : nat) (randomDate : Qc) (s s' : Session) :
  startSearch K up fuel randomDate s = Some s' ->
  videos (hook s') <> []
  /\ Forall (rare K) (videos (hook s'))
  /\ isLoading (hook s') = false
  /\ statusMessage (hook s') = None
  /\ error (hook s') = None.
Proof.
  intros Hstart.
  pose proof (startSearch_no_error K up fuel randomDate s s' Hstart) as Herror.
  unfold startSearch in Hstart.
  destruct (run K up fuel _ 1 _) as [[r s3]|] eqn:Hrun; [|discriminate].
  apply (run_invariant K up (fun _ _ _ => True)
           (fun s' => videos (hook s') <> []
                      /\ Forall (rare K) (videos (hook s'))
                      /\ isLoading (hook s') = false
                      /\ statusMessage (hook s') = None))
    in Hrun as [-> Hend]; [| auto | | exact I].
  - injection Hstart as <-. destruct Hend as [? [? [? ?]]]. auto.
  - intros w n s0 s1 _ Hstep.
    destruct (searchWithExpansion_cases K up w n s0)
      as [next [s2 [Heq [_ [_ Hcase]]]]].
    rewrite Hstep in Heq. injection Heq as <- <-.
    destruct Hcase as [Hl [Hm [Hv [[details Hd] _]]]].
    repeat split; auto. rewrite Hd. apply filterRareVideos_Forall.
Qed.

(** With the range of [Date] in them, the search and the step are what they
    are without on a window within the range, and a throw on any other. *)
Lemma Dated_searchVideosInTimeWindow_eq (up : Upstream) (w : TimeWindow)
    (m : Youtube) :
  Dated.searchVideosInTimeWindow up w m
  = if Dated.in_range w then searchVideosInTimeWindow up w m else (Thrown, m).
Proof.
  unfold Dated.searchVideosInTimeWindow, Dated.getSearchCacheKey,
    Dated.toISOString, Dated.in_range, searchVideosInTimeWindow,
    getSearchCacheKey.
  destruct (Dated.valid (startDate w)); [|reflexivity].
  destruct (Dated.valid (endDate w)); reflexivity.
Qed.

Lemma Dated_searchWithExpansion_eq (K : Constants) (up : Upstream)
    (w : TimeWindow) (n : nat) (s : Session) :
  Dated.searchWithExpansion K up w n s
  = if Dated.in_range w then searchWithExpansion K up w n s
    else (Thrown,
          snd (setStatusMessage (Some (Scanning n (durationMinutes w))) s)).
Proof.
  unfold Dated.searchWithExpansion.
  unfold Js.bind at 1. unfold setStatusMessage at 1, Js.modify at 1.
  unfold Js.bind at 1. unfold call at 1. simpl youtube.
  rewrite Dated_searchVideosInTimeWindow_eq.
  destruct (Dated.in_range w); reflexivity.
Qed.

(** A chain of steps ends by the return, and is then the chain it is without
    the range of [Date]; or by a throw, at a window out of the range that
    the hook shows as the current one, with the loading flag, the videos and
    [error] as they were when the chain began. *)
Lemma Dated_run_end (K : Constants) (up : Upstream) (fuel : nat) :
  forall (w : TimeWindow) (n : nat) (s : Session) r s',
    currentWindow (hook s) = Some w ->
    Dated.run K up fuel w n s = Some (r, s') ->
    (r = Normal tt /\ run K up fuel w n s = Some (Normal tt, s'))
    \/ (r = Thrown
        /\ isLoading (hook s') = isLoading (hook s)
        /\ videos (hook s') = videos (hook s)
        /\ error (hook s') = error (hook s)
        /\ exists wf nf,
             Dated.in_range wf = false
             /\ currentWindow (hook s') = Some wf
             /\ statusMessage (hook s')
                = Some (Scanning nf (durationMinutes wf))).
Proof.
  induction fuel as [|fuel IH]; intros w n s r s' Hcurrent Hrun;
    [discriminate|].
  cbn [Dated.run run] in *. rewrite Dated_searchWithExpansion_eq in Hrun.
  destruct (Dated.in_range w) eqn:Hrange.
  - destruct (searchWithExpansion_cases K up w n s)
      as [next [s1 [Hstep [_ [Herror Hcase]]]]].
    rewrite Hstep in Hrun |- *. destruct next as [w' n'|].
    + destruct Hcase as [_ [_ [_ [Hcw [Hloading Hvideos]]]]].
      destruct (IH _ _ _ _ _ Hcw Hrun)
        as [[-> Hsame]|[-> [Hl [Hv [He Hthrow]]]]]; [left; auto|].
      right. split; [reflexivity|].
      rewrite Hl, Hv, He. auto.
    + injection Hrun as <- <-. left. auto.
  - injection Hrun as <- <-. right. split; [reflexivity|]. simpl.
    repeat split. exists w, n. auto.
Qed.

(** The two ends of a session: the return of the last step, or the [catch]
    of [startSearch]. *)
Lemma Dated_startSearch_end (K : Constants) (up : Upstream) (fuel : nat)
    (randomDate : Qc) (s s' : Session) :
  Dated.startSearch K up fuel randomDate s = Some s' ->
  (error (hook s') = None /\ startSearch K up fuel randomDate s = Some s')
  \/ (error (hook s') = Some "An error occurred. Please try again."%string
      /\ isLoading (hook s') = false
      /\ videos (hook s') = []
      /\ exists wf nf,
           Dated.in_range wf = false
           /\ currentWindow (hook s') = Some wf
           /\ statusMessage (hook s')
              = Some (Scanning nf (durationMinutes wf))).
Proof.
  unfold Dated.startSearch, startSearch. intros Hstart.
  destruct (Dated.run K up fuel _ 1 _) as [[r s3]|] eqn:Hrun; [|discriminate].
  apply Dated_run_end in Hrun
    as [[-> Hsame]|[-> [_ [Hvideos [_ Hthrow]]]]]; [| |reflexivity].
  - injection Hstart as <-. left. rewrite Hsame. split; [|reflexivity].
    apply (startSearch_no_error K up fuel randomDate s s3).
    unfold startSearch. now rewrite Hsame.
  - injection Hstart as <-. right. simpl. auto.
Qed.

(** Reading [error] off a session given by its computation. *)
Lemma returned_session (o : option Session) (s' : Session) :
  o = Some s' ->
  match o with
  | Some s0 => error (hook s0)
  | None => None
  end = None ->
  error (hook s') = None.
Proof. intros ->. auto. Qed.

(** X1. How a session ends. When [startSearch] comes to an end, it is in one
    of two ways. By the return of the last step: there is no error, the
    videos it leaves are not empty and every one of them has fewer views
    than [RARE_VIEW_THRESHOLD], the loading flag is down and there is no
    status message. Or in the [catch] of [startSearch], after
    [toISOString()] threw on a window that has left the range of [Date]:
    [error] is set, there are no videos, the loading flag is down, and the
    hook still shows that window and the status message of the step that
    was to scan it. *)
Theorem startSearch_ends_with_rare_videos_or_an_error (K : Constants)
    (up : Upstream) (fuel : nat) (randomDate : Qc) (s s' : Session) :
  Dated.startSearch K up fuel randomDate s = Some s' ->
  (error (hook s') = None
   /\ videos (hook s') <> []
   /\ Forall (rare K) (videos (hook s'))
   /\ isLoading (hook s') = false
   /\ statusMessage (hook s') = None)
  \/ (error (hook s') = Some "An error occurred. Please try again."%string
      /\ videos (hook s') = []
      /\ isLoading (hook s') = false
      /\ exists wf nf,
           Dated.in_range wf = false
           /\ currentWindow (hook s') = Some wf
           /\ statusMessage (hook s')
              = Some (Scanning nf (durationMinutes wf))).
Proof.
  intros Hstart.
  destruct (Dated_startSearch_end K up fuel randomDate s s' Hstart)
    as [[Herror Hsame]|[Herror [Hloading [Hvideos Hthrow]]]].
  - left. destruct (startSearch_end K up fuel randomDate s s' Hsame)
      as [Hv [Hr [Hl [Hm _]]]].
    auto.
  - right. auto.
Qed.

Lemma startSearch_ends_with_rare_videos_or_an_error_witness :
  (exists s',
     Dated.startSearch Example.K Scenario.sparse 3 (Q2Qc 1000) Example.idle
     = Some s'
     /\ error (hook s') = None
     /\ videos (hook s') <> []
     /\ Forall (rare Example.K) (videos (hook s')))
  /\ (exists s',
        Dated.startSearch Example.K Example.offline 5 (Q2Qc 1000) Example.idle
        = Some s'
        /\ error (hook s') <> None
        /\ videos (hook s') = []
        /\ isLoading (hook s') = false).
Proof.
  split.
  - destruct (Dated.startSearch Example.K Scenario.sparse 3 (Q2Qc 1000)
                Example.idle)
      as [s'|] eqn:Hstart; [|vm_compute in Hstart; discriminate].
    exists s'. split; [reflexivity|].
    assert (Herror : error (hook s') = None)
      by (apply (returned_session _ _ Hstart); vm_compute; reflexivity).
    destruct (startSearch_ends_with_rare_videos_or_an_error Example.K
                Scenario.sparse 3 (Q2Qc 1000) Example.idle s' Hstart)
      as [[_ [Hv [Hr _]]]|[Hset _]]; [auto|].
    rewrite Herror in Hset. discriminate.
  - destruct (Dated.startSearch Example.K Example.offline 5 (Q2Qc 1000)
                Example.idle)
      as [s'|] eqn:Hstart; [|vm_compute in Hstart; discriminate].
    exists s'. split; [reflexivity|].
    destruct (startSearch_ends_with_rare_videos_or_an_error Example.K
                Example.offline 5 (Q2Qc 1000) Example.idle s' Hstart)
      as [[_ [Hv _]]|[Hset [Hv [Hl _]]]].
    + exfalso. apply Hv. clear Hv.
      assert (Hsome : Some s' = Some s') by reflexivity.
      rewrite <- Hstart in Hsome at 1. clear Hstart.
      assert (Hread : forall o : option Session,
                 o = Some s' ->
                 match o with
                 | Some s0 => videos (hook s0)
                 | None => []
                 end = videos (hook s')) by (intros o ->; reflexivity).
      rewrite <- (Hread _ Hsome). vm_compute. reflexivity.
    + rewrite Hset. split; [discriminate | auto].
Defined.

Lemma run_counts_steps (K : Constants) (up : Upstream) (k : nat) :
  forall (w : TimeWindow) (n : nat) (s : Session) r s',
    run K up (S k) w n s = Some (r, s') ->
    run K up k w n s = None ->
    expansionCount (hook s')
    = match k with
      | 0 => expansionCount (hook s)
      | S _ => n + k - 1
      end.
Proof.
  induction k as [|k IH]; intros w n s r s' Hrun Hnot.
  - simpl in Hrun.
    destruct (searchWithExpansion_cases K up w n s)
      as [next [s1 [Hstep [_ [_ Hcase]]]]].
    rewrite Hstep in Hrun. destruct next as [w' n'|]; [discriminate|].
    injection Hrun as _ <-. now destruct Hcase as [_ [_ [_ [_ [_ ?]]]]].
  - change (run K up (S (S k)) w n s)
      with (match searchWithExpansion K up w n s with
            | (Normal (Call_searchWithExpansion w' n'), s1) =>
                run K up (S k) w' n' s1
            | (Normal Return, s1) => Some (Normal tt, s1)
            | (Thrown, s1) => Some (Thrown, s1)
            end) in Hrun.
    change (run K up (S k) w n s)
      with (match searchWithExpansion K up w n s with
            | (Normal (Call_searchWithExpansion w' n'), s1) =>
                run K up k w' n' s1
            | (Normal Return, s1) => Some (Normal tt, s1)
            | (Thrown, s1) => Some (Thrown, s1)
            end) in Hnot.
    destruct (searchWithExpansion_cases K up w n s)
      as [next [s1 [Hstep [_ [_ Hcase]]]]].
    rewrite Hstep in Hrun, Hnot. destruct next as [w' n'|]; [|discriminate].
    destruct Hcase as [_ [-> [Hcount _]]].
    rewrite (IH _ _ _ _ _ Hrun Hnot). destruct k; lia.
Qed.

(** X2. The expansion count. A session that ends at its [(k+1)]-th step, and
    not before, shows [expansionCount = k]: the number of windows tried
    after the first one. *)
Theorem expansionCount_counts_the_steps (K : Constants) (up : Upstream)
    (k : nat) (randomDate : Qc) (s s' : Session) :
  startSearch K up (S k) randomDate s = Some s' ->
  startSearch K up k randomDate s = None ->
  expansionCount (hook s') = k.
Proof.
  unfold startSearch. intros Hend Hnot.
  destruct (run K up (S k) _ 1 _) as [[r s3]|] eqn:Hrun; [|discriminate].
  destruct (run K up k _ 1 _) as [[r0 s0]|] eqn:Hshort;
    [destruct r0; discriminate|].
  pose proof (run_normal K up _ _ _ _ _ _ Hrun) as ->.
  injection Hend as <-.
  rewrite (run_counts_steps K up k _ _ _ _ _ Hrun Hshort).
  destruct k; [reflexivity | lia].
Qed.

Lemma expansionCount_counts_the_steps_witness :
  exists s',
    startSearch Example.K Scenario.sparse 3 (Q2Qc 1000) Example.idle = Some s'
    /\ expansionCount (hook s') = 2.
Proof.
  destruct (startSearch Example.K Scenario.sparse 3 (Q2Qc 1000) Example.idle)
    as [s'|] eqn:Hstart; [|vm_compute in Hstart; discriminate].
  exists s'. split; [reflexivity|].
  apply (expansionCount_counts_the_steps Example.K Scenario.sparse 2
           (Q2Qc 1000) Example.idle s' Hstart).
  vm_compute. reflexivity.
Defined.

(** X3. A step that finds nothing. When the search of a window returns no id
    (an empty answer, a rejected request or a cached empty answer), the step
    fetches no detail and sends no detail request, and goes on to step
    [n + 1] with the window expanded by [AGGRESSIVE_EXPANSION_FACTOR]; the
    expansion count becomes [n], and for a window of non-zero duration the
    status message quotes [Math.round] of the new duration divided by the
    old one, and the new duration. *)
Theorem empty_window_expands_aggressively (K : Constants) (up : Upstream)
    (w : TimeWindow) (n : nat) (s : Session) (m1 : Youtube) :
  searchVideosInTimeWindow up w (youtube s) = (Normal [], m1) ->
  exists s',
    searchWithExpansion K up w n s
    = (Normal (Call_searchWithExpansion
                 (expandTimeWindow K w (Some (AGGRESSIVE_EXPANSION_FACTOR K)))
                 (n + 1)), s')
    /\ youtube s' = m1
    /\ expansionCount (hook s') = n
    /\ currentWindow (hook s')
       = Some (expandTimeWindow K w (Some (AGGRESSIVE_EXPANSION_FACTOR K)))
    /\ videos (hook s') = videos (hook s)
    /\ isLoading (hook s') = isLoading (hook s)
    /\ (durationMinutes w <> Q2Qc 0 ->
        statusMessage (hook s')
        = Some (NoVideosFound
                  (Num.round
                     (durationMinutes
                        (expandTimeWindow K w
                           (Some (AGGRESSIVE_EXPANSION_FACTOR K)))
                      / durationMinutes w)%Qc)
                  (durationMinutes
                     (expandTimeWindow K w
                        (Some (AGGRESSIVE_EXPANSION_FACTOR K)))))).
Proof.
  intros Hsearch. unfold searchWithExpansion.
  unfold Js.bind at 1. unfold setStatusMessage at 1, Js.modify at 1.
  unfold Js.bind at 1. unfold call at 1. simpl youtube. rewrite Hsearch.
  eexists. split; [reflexivity|]. simpl.
  split; [reflexivity|]. split; [lia|]. split; [reflexivity|].
  split; [reflexivity|]. split; [reflexivity|].
  intros _. reflexivity.
Qed.

Lemma empty_window_expands_aggressively_witness :
  exists s',
    searchWithExpansion Example.K Example.offline Example.hour 1 Example.idle
    = (Normal (Call_searchWithExpansion
                 (expandTimeWindow Example.K Example.hour
                    (Some (AGGRESSIVE_EXPANSION_FACTOR Example.K)))
                 (1 + 1)), s')
    /\ statusMessage (hook s')
       = Some (NoVideosFound 1440 (Q2Qc 60 * Q2Qc 1440)%Qc).
Proof.
  destruct (empty_window_expands_aggressively Example.K Example.offline
              Example.hour 1 Example.idle
              (searched Example.hour Example.fresh))
    as [s' [Hstep [_ [_ [_ [_ [_ Hmessage]]]]]]].
  - reflexivity.
  - exists s'. split; [exact Hstep|].
    rewrite Hmessage by discriminate. vm_compute. reflexivity.
Defined.

(** ** Requests and counters *)

Lemma count_search_app (l1 l2 : list Request) :
  count_search (l1 ++ l2) = count_search l1 + count_search l2.
Proof. unfold count_search. now rewrite List.filter_app, length_app. Qed.

Lemma count_videos_app (l1 l2 : list Request) :
  count_videos (l1 ++ l2) = count_videos l1 + count_videos l2.
Proof. unfold count_videos. now rewrite List.filter_app, length_app. Qed.

Lemma count_batches (batches : list (list string)) :
  count_search (map GetVideos batches) = 0
  /\ count_videos (map GetVideos batches) = length batches.
Proof.
  unfold count_search, count_videos.
  induction batches as [|b bs [IH1 IH2]]; simpl; auto.
Qed.

Lemma count_split (l : list Request) :
  count_search l + count_videos l = length l.
Proof.
  unfold count_search, count_videos.
  induction l as [|[k a b|ids] l IH]; simpl; lia.
Qed.

Lemma accounts_refl (m : Youtube) : accounts [] m m.
Proof.
  unfold accounts, count_search, count_videos. simpl. rewrite app_nil_r.
  repeat split; lia.
Qed.

Lemma accounts_trans (l1 l2 : list Request) (m1 m2 m3 : Youtube) :
  accounts l1 m1 m2 -> accounts l2 m2 m3 -> accounts (l1 ++ l2) m1 m3.
Proof.
  unfold accounts.
  intros [Hs1 [Ha1 [Hb1 [Hc1 [Hd1 He1]]]]] [Hs2 [Ha2 [Hb2 [Hc2 [Hd2 He2]]]]].
  rewrite count_search_app, count_videos_app, length_app, Hs2, Hs1, app_assoc.
  repeat split; lia.
Qed.

Lemma accounts_stats_le (new : list Request) (m m' : Youtube) :
  accounts new m m' -> stats_le (apiStats m) (apiStats m').
Proof.
  unfold accounts, stats_le. intros [_ [? [? [? [? ?]]]]]. repeat split; lia.
Qed.

Lemma searchVideosInTimeWindow_accounts (up : Upstream) (w : TimeWindow)
    (m : Youtube) :
  exists new,
    accounts new m (snd (searchVideosInTimeWindow up w m))
    /\ Forall (request_of w) new
    /\ (0 < totalApiCalls (apiStats (snd (searchVideosInTimeWindow up w m)))
        \/ 0 < cachedSearches
                 (apiStats (snd (searchVideosInTimeWindow up w m)))).
Proof.
  destruct (searchCache m !! getSearchCacheKey w) as [ids|] eqn:Hcache.
  - rewrite (searchVideosInTimeWindow_hit up w m ids Hcache).
    exists []. unfold accounts, count_search, count_videos. simpl.
    rewrite app_nil_r.
    split; [repeat split; lia|]. split; [constructor | right; lia].
  - rewrite (searchVideosInTimeWindow_miss up w m Hcache).
    exists [search_request w].
    destruct (search_list up _ _);
      unfold accounts, count_search, count_videos; simpl;
      (split; [repeat split; lia|]);
      (split; [repeat constructor | left; lia]).
Qed.

Lemma getVideoDetails_accounts (up : Upstream) (videoIds : list string)
    (m : Youtube) (w : TimeWindow) :
  exists new,
    accounts new m (snd (getVideoDetails up videoIds m))
    /\ Forall (request_of w) new.
Proof.
  rewrite getVideoDetails_eq.
  destruct videoIds as [|v0 rest]; [exists []; split; [apply accounts_refl | constructor]|].
  destruct (uncached m (v0 :: rest)) as [|u0 us].
  { exists []. split; [|constructor].
    unfold accounts, count_search, count_videos. simpl. rewrite app_nil_r.
    repeat split; lia. }
  cbv zeta. exists (map GetVideos (make_batches (u0 :: us))).
  destruct (count_batches (make_batches (u0 :: us))) as [Hzero Hcount].
  destruct (make_batches_spec (u0 :: us)) as [_ [_ Hall]].
  split.
  - destruct (mapM _ _); unfold accounts;
      cbn [snd sent apiStats issued with_videoCache searchApiCalls
           videoDetailApiCalls totalApiCalls cachedSearches
           cachedVideoDetails];
      rewrite Hzero, Hcount, length_map; repeat split; lia.
  - apply List.Forall_forall. intros q Hq.
    apply in_map_iff in Hq as [b [<- Hb]].
    rewrite List.Forall_forall in Hall. exact (Hall b Hb).
Qed.

Lemma client_step_accounts (up : Upstream) (w : TimeWindow) (m : Youtube) :
  exists new,
    accounts new m (client_step up w m)
    /\ Forall (request_of w) new
    /\ (0 < totalApiCalls (apiStats (client_step up w m))
        \/ 0 < cachedSearches (apiStats (client_step up w m))).
Proof.
  unfold client_step.
  destruct (searchVideosInTimeWindow_accounts up w m)
    as [new1 [Hacc1 [Hall1 Hpos]]].
  destruct (searchVideosInTimeWindow up w m) as [[[|v0 rest]|] m1];
    simpl in Hacc1, Hpos; eauto.
  destruct (getVideoDetails_accounts up (v0 :: rest) m1 w)
    as [new2 [Hacc2 Hall2]].
  exists (new1 ++ new2). split; [exact (accounts_trans _ _ _ _ _ Hacc1 Hacc2)|].
  split; [now apply Forall_app|].
  apply accounts_stats_le in Hacc2.
  destruct Hacc2 as [_ [_ [? [? _]]]]. lia.
Qed.

(** Along a chain of steps that starts on a window with the property [P],
    a property every successor of a window inherits: the requests sent are
    accounted for, each is a request of a window with [P], and the current
    window, once set to a window with [P], is one still. *)
Lemma run_session (K : Constants) (up : Upstream) (P : TimeWindow -> Prop) :
  (forall w w', P w -> successor K w w' -> P w') ->
  forall fuel w n s r s',
    P w ->
    (forall wc, currentWindow (hook s) = Some wc -> P wc) ->
    run K up fuel w n s = Some (r, s') ->
    (forall wc, currentWindow (hook s') = Some wc -> P wc)
    /\ (0 < totalApiCalls (apiStats (youtube s'))
        \/ 0 < cachedSearches (apiStats (youtube s')))
    /\ exists new,
         accounts new (youtube s) (youtube s')
         /\ Forall (fun q => exists w0, P w0 /\ request_of w0 q) new.
Proof.
  intros Hclosed fuel w n s r s' Hw Hcurrent Hrun.
  pose (J := fun (s1 : Session) =>
    (forall wc, currentWindow (hook s1) = Some wc -> P wc)
    /\ exists new,
         accounts new (youtube s) (youtube s1)
         /\ Forall (fun q => exists w0, P w0 /\ request_of w0 q) new).
  assert (Hstep : forall w1 n1 s1,
             P w1 -> J s1 ->
             exists next s2,
               searchWithExpansion K up w1 n1 s1 = (Normal next, s2)
               /\ (0 < totalApiCalls (apiStats (youtube s2))
                   \/ 0 < cachedSearches (apiStats (youtube s2)))
               /\ J s2
               /\ match next with
                  | Call_searchWithExpansion w2 _ => P w2
                  | Return => True
                  end).
  { intros w1 n1 s1 Hw1 [Hcur [new [Hacc Hall]]].
    destruct (searchWithExpansion_cases K up w1 n1 s1)
      as [next [s2 [Heq [Hy [_ Hcase]]]]].
    destruct (client_step_accounts up w1 (youtube s1))
      as [new1 [Hacc1 [Hall1 Hpos]]].
    rewrite <- Hy in Hacc1, Hpos.
    exists next, s2. split; [exact Heq|]. split; [exact Hpos|].
    assert (Hreqs : exists new',
               accounts new' (youtube s) (youtube s2)
               /\ Forall (fun q => exists w0, P w0 /\ request_of w0 q) new').
    { exists (new ++ new1).
      split; [exact (accounts_trans _ _ _ _ _ Hacc Hacc1)|].
      apply Forall_app. split; [exact Hall|].
      eapply List.Forall_impl; [|exact Hall1]. intros q Hq. eauto. }
    destruct next as [w2 n2|].
    - destruct Hcase as [Hsucc [_ [_ [Hcw _]]]].
      pose proof (Hclosed _ _ Hw1 Hsucc) as Hw2.
      split; [|exact Hw2]. split; [|exact Hreqs].
      intros wc Hwc. rewrite Hcw in Hwc. now injection Hwc as <-.
    - destruct Hcase as [_ [_ [_ [_ [Hcw _]]]]].
      split; [|exact I]. split; [|exact Hreqs].
      intros wc Hwc. rewrite Hcw in Hwc. auto. }
  assert (Hcall : forall w1 n1 s1 w2 n2 s2,
             P w1 /\ J s1 ->
             searchWithExpansion K up w1 n1 s1
             = (Normal (Call_searchWithExpansion w2 n2), s2) ->
             P w2 /\ J s2).
  { intros w1 n1 s1 w2 n2 s2 [Hw1 HJ] Heq.
    destruct (Hstep w1 n1 s1 Hw1 HJ) as [next [s3 [Heq' [_ [HJ' Hnext]]]]].
    rewrite Heq in Heq'. injection Heq' as <- <-. auto. }
  assert (Hreturn : forall w1 n1 s1 s2,
             P w1 /\ J s1 ->
             searchWithExpansion K up w1 n1 s1 = (Normal Return, s2) ->
             (0 < totalApiCalls (apiStats (youtube s2))
              \/ 0 < cachedSearches (apiStats (youtube s2)))
             /\ J s2).
  { intros w1 n1 s1 s2 [Hw1 HJ] Heq.
    destruct (Hstep w1 n1 s1 Hw1 HJ) as [next [s3 [Heq' [Hpos [HJ' _]]]]].
    rewrite Heq in Heq'. injection Heq' as <- <-. auto. }
  assert (Hinit : P w /\ J s).
  { split; [exact Hw|]. split; [exact Hcurrent|].
    exists []. split; [apply accounts_refl | constructor]. }
  destruct (run_invariant K up _ _ Hcall Hreturn fuel w n s r s' Hinit Hrun)
    as [_ [Hpos [Hcur Hreqs]]].
  auto.
Qed.

Lemma run_keeps_a_window (K : Constants) (up : Upstream) (fuel : nat)
    (w : TimeWindow) (n : nat) (s : Session) r s' :
  is_Some (currentWindow (hook s)) ->
  run K up fuel w n s = Some (r, s') ->
  is_Some (currentWindow (hook s')).
Proof.
  intros Hsome Hrun.
  assert (Hstep : forall w1 n1 s1 next s2,
             is_Some (currentWindow (hook s1)) ->
             searchWithExpansion K up w1 n1 s1 = (Normal next, s2) ->
             is_Some (currentWindow (hook s2))).
  { intros w1 n1 s1 next s2 Hs1 Heq.
    destruct (searchWithExpansion_cases K up w1 n1 s1)
      as [next' [s3 [Heq' [_ [_ Hcase]]]]].
    rewrite Heq in Heq'. injection Heq' as <- <-.
    destruct next as [w2 n2|].
    - destruct Hcase as [_ [_ [_ [-> _]]]]. eauto.
    - destruct Hcase as [_ [_ [_ [_ [-> _]]]]]. exact Hs1. }
  destruct (run_invariant K up
              (fun _ _ s1 => is_Some (currentWindow (hook s1)))
              (fun s1 => is_Some (currentWindow (hook s1)))
              (fun w1 n1 s1 w2 n2 s2 H => Hstep w1 n1 s1 _ s2 H)
              (fun w1 n1 s1 s2 H => Hstep w1 n1 s1 _ s2 H)
              fuel w n s r s' Hsome Hrun) as [_ H].
  exact H.
Qed.

(** A whole session, for a property [P] of windows that the first window has
    and every successor inherits. *)
Lemma startSearch_session (K : Constants) (up : Upstream)
    (P : TimeWindow -> Prop) :
  (forall w w', P w -> successor K w w' -> P w') ->
  forall fuel randomDate s s',
    P (createInitialTimeWindow K randomDate) ->
    startSearch K up fuel randomDate s = Some s' ->
    (exists wf, currentWindow (hook s') = Some wf /\ P wf)
    /\ (0 < totalApiCalls (apiStats (youtube s'))
        \/ 0 < cachedSearches (apiStats (youtube s')))
    /\ exists new,
         sent (youtube s') = sent (youtube s) ++ new
         /\ searchApiCalls (apiStats (youtube s')) = count_search new
         /\ videoDetailApiCalls (apiStats (youtube s')) = count_videos new
         /\ totalApiCalls (apiStats (youtube s')) = length new
         /\ Forall (fun q => exists w0, P w0 /\ request_of w0 q) new.
Proof.
  intros Hclosed fuel randomDate s s' Hfirst Hstart.
  unfold startSearch in Hstart.
  destruct (run K up fuel _ 1 _) as [[r s3]|] eqn:Hrun; [|discriminate].
  pose proof (run_normal K up _ _ _ _ _ _ Hrun) as ->.
  injection Hstart as <-.
  match type of Hrun with
  | run _ _ _ _ _ ?s2 = _ =>
      assert (Hset : currentWindow (hook s2)
                     = Some (createInitialTimeWindow K randomDate))
        by reflexivity
  end.
  assert (Hsome := run_keeps_a_window K up _ _ _ _ _ _
                     (ex_intro _ _ Hset) Hrun).
  destruct Hsome as [wf Hwf].
  assert (Hsession := fun H => run_session K up P Hclosed _ _ _ _ _ _
                                 Hfirst H Hrun).
  destruct Hsession
    as [Hcur [Hpos [new [[Hsent [Ha [Hb [Hc _]]]] Hall]]]].
  { intros wc Hwc. rewrite Hset in Hwc. now injection Hwc as <-. }
  split; [exists wf; auto|]. split; [exact Hpos|].
  exists new. simpl in Hsent, Ha, Hb, Hc. auto.
Qed.

(** X4. The counters count the requests. At the end of a session, the
    requests sent since [startSearch] are as many searches as
    [searchApiCalls] says, as many detail requests as [videoDetailApiCalls]
    says, [totalApiCalls] in all; each search asks for at most
    [MAX_RESULTS_PER_REQUEST] results, each detail request carries 1 to
    [MAX_IDS_PER_REQUEST] ids. *)
Theorem startSearch_counts_its_requests (K : Constants) (up : Upstream)
    (fuel : nat) (randomDate : Qc) (s s' : Session) :
  startSearch K up fuel randomDate s = Some s' ->
  exists new,
    sent (youtube s') = sent (youtube s) ++ new
    /\ searchApiCalls (apiStats (youtube s')) = count_search new
    /\ videoDetailApiCalls (apiStats (youtube s')) = count_videos new
    /\ totalApiCalls (apiStats (youtube s')) = length new
    /\ Forall (fun q =>
                 match q with
                 | GetSearch maxResults _ _ =>
                     maxResults = MAX_RESULTS_PER_REQUEST
                 | GetVideos batchIds =>
                     1 <= length batchIds <= MAX_IDS_PER_REQUEST
                 end) new.
Proof.
  intros Hstart.
  destruct (startSearch_session K up (fun _ => True) (fun _ _ _ _ => I)
              fuel randomDate s s' I Hstart)
    as [_ [_ [new [Hsent [Ha [Hb [Hc Hall]]]]]]].
  exists new. repeat split; auto.
  eapply List.Forall_impl; [|exact Hall].
  intros [k a b|batchIds] [w0 [_ Hq]]; [|exact Hq].
  now injection Hq as -> _ _.
Qed.

Lemma startSearch_counts_its_requests_witness :
  exists s' new,
    startSearch Example.K Scenario.sparse 3 (Q2Qc 1000) Example.idle = Some s'
    /\ sent (youtube s') = new
    /\ searchApiCalls (apiStats (youtube s')) = count_search new
    /\ videoDetailApiCalls (apiStats (youtube s')) = count_videos new
    /\ totalApiCalls (apiStats (youtube s')) = length new.
Proof.
  destruct (startSearch Example.K Scenario.sparse 3 (Q2Qc 1000) Example.idle)
    as [s'|] eqn:Hstart; [|vm_compute in Hstart; discriminate].
  destruct (startSearch_counts_its_requests Example.K Scenario.sparse 3
              (Q2Qc 1000) Example.idle s' Hstart)
    as [new [Hsent [Ha [Hb [Hc _]]]]].
  exists s', new. auto.
Defined.

(** X5. No counter goes down in a session. A search, a detail fetch, a step
    and a chain of steps leave each of the five counters at least where it
    was; only [apiStats.reset()] lowers them. *)
Theorem counters_never_decrease (K : Constants) (up : Upstream) :
  (forall w m,
      stats_le (apiStats m) (apiStats (snd (searchVideosInTimeWindow up w m))))
  /\ (forall videoIds m,
        stats_le (apiStats m) (apiStats (snd (getVideoDetails up videoIds m))))
  /\ (forall w n s,
        stats_le (apiStats (youtube s))
          (apiStats (youtube (snd (searchWithExpansion K up w n s)))))
  /\ (forall fuel w n s r s',
        run K up fuel w n s = Some (r, s') ->
        stats_le (apiStats (youtube s)) (apiStats (youtube s'))).
Proof.
  split.
  { intros w m.
    destruct (searchVideosInTimeWindow_accounts up w m) as [new [Hacc _]].
    exact (accounts_stats_le _ _ _ Hacc). }
  split.
  { intros videoIds m.
    destruct (getVideoDetails_accounts up videoIds m Example.hour)
      as [new [Hacc _]].
    exact (accounts_stats_le _ _ _ Hacc). }
  split.
  { intros w n s.
    destruct (searchWithExpansion_normal K up w n s)
      as [next [s' [-> [Hy _]]]].
    simpl. rewrite Hy.
    destruct (client_step_accounts up w (youtube s)) as [new [Hacc _]].
    exact (accounts_stats_le _ _ _ Hacc). }
  intros fuel w n s r s' Hrun.
  destruct (run_session K up (fun _ => True) (fun _ _ _ _ => I)
              fuel w n s r s' I (fun _ _ => I) Hrun)
    as [_ [_ [new [Hacc _]]]].
  exact (accounts_stats_le _ _ _ Hacc).
Qed.

Lemma counters_never_decrease_witness :
  stats_le (apiStats (youtube Example.idle))
    (apiStats (youtube Example.after_first_search)).
Proof.
  destruct (counters_never_decrease Example.K (Example.steady 1 3))
    as [_ [_ [_ Hrun]]].
  apply (Hrun 1 (createInitialTimeWindow Example.K (Q2Qc 1000)) 1
           (snd (setCurrentWindow
                   (Some (createInitialTimeWindow Example.K (Q2Qc 1000)))
                   (snd (startSearch_reset Example.idle))))
           (Normal tt)).
  vm_compute. reflexivity.
Defined.

(** ** The windows of a session *)

Lemma successor_center (K : Constants) (w w' : TimeWindow) :
  successor K w w' -> getWindowCenter w' = getWindowCenter w.
Proof.
  unfold successor, expandTimeWindow.
  intros [->|[->| ->]]; apply getWindowCenter_createTimeWindow.
Qed.

(** X6. A session stays around its date. In a session that ends by the
    return of its last step (no error: no window left the range of [Date]),
    every search request is for a window whose middle is the date
    [startSearch] drew, and so is the window the hook shows at the end. *)
Theorem windows_stay_centered (K : Constants) (up : Upstream)
    (fuel : nat) (randomDate : Qc) (s s' : Session) :
  Dated.startSearch K up fuel randomDate s = Some s' ->
  error (hook s') = None ->
  (exists wf,
      currentWindow (hook s') = Some wf /\ getWindowCenter wf = randomDate)
  /\ exists new,
       sent (youtube s') = sent (youtube s) ++ new
       /\ Forall (fun q =>
                    match q with
                    | GetSearch _ publishedAfter publishedBefore =>
                        ((publishedAfter + publishedBefore) / 2)%Qc
                        = randomDate
                    | GetVideos _ => True
                    end) new.
Proof.
  intros Hdated Hreturn.
  destruct (Dated_startSearch_end K up fuel randomDate s s' Hdated)
    as [[_ Hstart]|[Herror _]]; [|congruence].
  destruct (startSearch_session K up
              (fun w => getWindowCenter w = randomDate)
              (fun w w' Hw Hsucc =>
                 eq_trans (successor_center K w w' Hsucc) Hw)
              fuel randomDate s s'
              (getWindowCenter_createTimeWindow _ _) Hstart)
    as [Hfinal [_ [new [Hsent [_ [_ [_ Hall]]]]]]].
  split; [exact Hfinal|]. exists new. split; [exact Hsent|].
  eapply List.Forall_impl; [|exact Hall].
  intros [k a b|batchIds] [w0 [Hcenter Hq]]; [|exact I].
  injection Hq as _ -> ->. exact Hcenter.
Qed.

Lemma windows_stay_centered_witness :
  exists s' wf,
    Dated.startSearch Example.K Scenario.sparse 3 (Q2Qc 1000) Example.idle
    = Some s'
    /\ currentWindow (hook s') = Some wf
    /\ getWindowCenter wf = Q2Qc 1000.
Proof.
  destruct (Dated.startSearch Example.K Scenario.sparse 3 (Q2Qc 1000)
              Example.idle)
    as [s'|] eqn:Hstart; [|vm_compute in Hstart; discriminate].
  destruct (windows_stay_centered Example.K Scenario.sparse 3 (Q2Qc 1000)
              Example.idle s' Hstart) as [[wf [Hwf Hcenter]] _].
  - apply (returned_session _ _ Hstart). vm_compute. reflexivity.
  - exists s', wf. auto.
Defined.

Lemma createTimeWindow_span (c d : Qc) :
  (endDate (createTimeWindow c d) - startDate (createTimeWindow c d))%Qc = d.
Proof. unfold createTimeWindow, Num.half. simpl. field. discriminate. Qed.

Lemma Qc_scale_up (d f : Qc) : (0 <= d)%Qc -> (1 <= f)%Qc -> (d <= d * f)%Qc.
Proof.
  intros Hd Hf.
  rewrite <- (Qcmult_1_r d) at 1. rewrite !(Qcmult_comm d).
  now apply Qcmult_le_compat_r.
Qed.

(** X7. No window below the floor. With factors of expansion of at least 1, a
    floor that is not negative and a first window at least as long as the
    floor, in a session that ends by the return of its last step (no error:
    no window left the range of [Date]) every search request spans at least
    [MIN_WINDOW_DURATION_MINUTES] minutes, and so does the window the hook
    shows at the end. *)
Theorem windows_stay_above_the_floor (K : Constants) (up : Upstream)
    (fuel : nat) (randomDate : Qc) (s s' : Session) :
  (Q2Qc 0 <= MIN_WINDOW_DURATION_MINUTES K)%Qc ->
  (MIN_WINDOW_DURATION_MINUTES K <= INITIAL_WINDOW_MINUTES K)%Qc ->
  (1 <= AGGRESSIVE_EXPANSION_FACTOR K)%Qc ->
  (1 <= MODERATE_EXPANSION_FACTOR K)%Qc ->
  Dated.startSearch K up fuel randomDate s = Some s' ->
  error (hook s') = None ->
  (exists wf,
      currentWindow (hook s') = Some wf
      /\ (MIN_WINDOW_DURATION_MINUTES K <= durationMinutes wf)%Qc
      /\ (endDate wf - startDate wf)%Qc = durationMinutes wf)
  /\ exists new,
       sent (youtube s') = sent (youtube s) ++ new
       /\ Forall (fun q =>
                    match q with
                    | GetSearch _ publishedAfter publishedBefore =>
                        (MIN_WINDOW_DURATION_MINUTES K
                         <= publishedBefore - publishedAfter)%Qc
                    | GetVideos _ => True
                    end) new.
Proof.
  intros Hfloor Hinitial Haggressive Hmoderate Hdated Hreturn.
  destruct (Dated_startSearch_end K up fuel randomDate s s' Hdated)
    as [[_ Hstart]|[Herror _]]; [|congruence].
  pose (P := fun w : TimeWindow =>
          (MIN_WINDOW_DURATION_MINUTES K <= durationMinutes w)%Qc
          /\ (endDate w - startDate w)%Qc = durationMinutes w).
  assert (Hclosed : forall w w', P w -> successor K w w' -> P w').
  { intros w w' [Hmin _] Hsucc.
    assert (Hpos : (0 <= durationMinutes w)%Qc)
      by (eapply Qcle_trans; [exact Hfloor | exact Hmin]).
    unfold successor, expandTimeWindow in Hsucc.
    destruct Hsucc as [->|[->| ->]]; split;
      try apply createTimeWindow_span; simpl.
    - apply Num_max_ge_r.
    - eapply Qcle_trans; [exact Hmin | now apply Qc_scale_up].
    - eapply Qcle_trans; [exact Hmin | now apply Qc_scale_up]. }
  assert (Hfirst : P (createInitialTimeWindow K randomDate))
    by (split; [exact Hinitial | apply createTimeWindow_span]).
  destruct (startSearch_session K up P Hclosed fuel randomDate s s'
              Hfirst Hstart)
    as [[wf [Hwf [Hmin Hspan]]] [_ [new [Hsent [_ [_ [_ Hall]]]]]]].
  split; [exists wf; auto|]. exists new. split; [exact Hsent|].
  eapply List.Forall_impl; [|exact Hall].
  intros [k a b|batchIds] [w0 [[Hmin0 Hspan0] Hq]]; [|exact I].
  injection Hq as _ -> ->. now rewrite Hspan0.
Qed.

Lemma windows_stay_above_the_floor_witness :
  exists s' wf,
    Dated.startSearch Example.K Scenario.sparse 3 (Q2Qc 1000) Example.idle
    = Some s'
    /\ currentWindow (hook s') = Some wf
    /\ (MIN_WINDOW_DURATION_MINUTES Example.K <= durationMinutes wf)%Qc.
Proof.
  destruct (Dated.startSearch Example.K Scenario.sparse 3 (Q2Qc 1000)
              Example.idle)
    as [s'|] eqn:Hstart; [|vm_compute in Hstart; discriminate].
  destruct (windows_stay_above_the_floor Example.K Scenario.sparse 3
              (Q2Qc 1000) Example.idle s')
    as [[wf [Hwf [Hmin _]]] _];
    [vm_compute; discriminate | vm_compute; discriminate
    | vm_compute; discriminate | vm_compute; discriminate | exact Hstart
    | apply (returned_session _ _ Hstart); vm_compute; reflexivity |].
  exists s', wf. auto.
Defined.

(** ** The caches *)

(** X8. A rejected search is not remembered. When the search request of a
    window that is not cached is rejected, the call returns no id and both
    caches are as they were; the next call for the same window sends the
    request again, and once it is answered the ids are returned and cached.
    The two requests are both counted. *)
Theorem rejected_search_is_retried (up up' : Upstream) (w : TimeWindow)
    (m : Youtube) (ids : list string) :
  searchCache m !! getSearchCacheKey w = None ->
  search_list up (startDate w) (endDate w) = None ->
  search_list up' (startDate w) (endDate w) = Some ids ->
  exists m1 m2,
    searchVideosInTimeWindow up w m = (Normal [], m1)
    /\ searchCache m1 = searchCache m
    /\ videoCache m1 = videoCache m
    /\ searchVideosInTimeWindow up' w m1 = (Normal ids, m2)
    /\ sent m2 = sent m ++ [search_request w; search_request w]
    /\ searchApiCalls (apiStats m2) = 2 + searchApiCalls (apiStats m)
    /\ totalApiCalls (apiStats m2) = 2 + totalApiCalls (apiStats m)
    /\ cachedSearches (apiStats m2) = cachedSearches (apiStats m)
    /\ searchCache m2 !! getSearchCacheKey w = Some ids.
Proof.
  intros Hmiss Hrejected Hanswered.
  pose proof (searchVideosInTimeWindow_miss up w m Hmiss) as Hfirst.
  rewrite Hrejected in Hfirst.
  pose proof (searchVideosInTimeWindow_miss up' w (searched w m) Hmiss)
    as Hsecond.
  rewrite Hanswered in Hsecond.
  eexists _, _. split; [exact Hfirst|]. split; [reflexivity|].
  split; [reflexivity|]. split; [exact Hsecond|]. simpl.
  split; [now rewrite <- app_assoc|].
  split; [reflexivity|]. split; [reflexivity|]. split; [reflexivity|].
  apply lookup_insert_eq.
Qed.

Lemma rejected_search_is_retried_witness :
  exists m1 m2,
    searchVideosInTimeWindow Example.offline Example.hour Example.fresh
    = (Normal [], m1)
    /\ searchVideosInTimeWindow (Example.steady 2 100) Example.hour m1
       = (Normal (Example.ids 2), m2)
    /\ searchApiCalls (apiStats m2) = 2.
Proof.
  destruct (rejected_search_is_retried Example.offline (Example.steady 2 100)
              Example.hour Example.fresh (Example.ids 2))
    as [m1 [m2 [H1 [_ [_ [H2 [_ [Hcount _]]]]]]]].
  - apply lookup_empty.
  - reflexivity.
  - reflexivity.
  - exists m1, m2. auto.
Defined.

(** The details returned are those the cache holds once the call is over. *)
Lemma getVideoDetails_result (up : Upstream) (videoIds : list string)
    (m : Youtube) :
  exists details m1,
    getVideoDetails up videoIds m = (Normal details, m1)
    /\ details = omap (fun i => videoCache m1 !! i) videoIds
    /\ forall i, is_Some (videoCache m !! i) -> is_Some (videoCache m1 !! i).
Proof.
  pose proof (getVideoDetails_keeps up videoIds m) as [_ Hkeeps].
  revert Hkeeps. rewrite getVideoDetails_eq.
  destruct videoIds as [|v0 rest]; [eauto|].
  destruct (uncached m (v0 :: rest)); [eauto|].
  cbv zeta. destruct (mapM _ _); eauto.
Qed.

(** X9. Which details count as served from the cache. The ids asked for, the
    ids in the cache and the ids in the answers are ordinary object keys
    (none names a member of [Object.prototype]). Without ids the call
    changes nothing. When every id is cached, nothing is sent and
    [cachedVideoDetails] goes up by the number of ids. As soon as one id is
    not cached, neither cache-hit counter moves, although the cached ids are
    still answered from the cache. *)
Theorem cached_details_count_only_when_all_cached (up : Upstream)
    (videoIds : list string) (m : Youtube) :
  ordinary videoIds ->
  ordinary_cache m ->
  ordinary_answers up (make_batches (uncached m videoIds)) ->
  getVideoDetails up [] m = (Normal [], m)
  /\ (videoIds <> [] ->
      uncached m videoIds = [] ->
      getVideoDetails up videoIds m
      = (Normal (omap (fun i => videoCache m !! i) videoIds),
         with_apiStats (add_cachedVideoDetails (length videoIds)) m))
  /\ (uncached m videoIds <> [] ->
      exists details m',
        getVideoDetails up videoIds m = (Normal details, m')
        /\ cachedVideoDetails (apiStats m') = cachedVideoDetails (apiStats m)
        /\ cachedSearches (apiStats m') = cachedSearches (apiStats m)
        /\ forall i,
             In i videoIds -> is_Some (videoCache m !! i) ->
             exists v, videoCache m' !! i = Some v /\ In v details).
Proof.
  intros _ _ _.
  split; [reflexivity|]. split.
  { intros Hne Hnone. rewrite getVideoDetails_eq.
    destruct videoIds as [|v0 rest]; [contradiction|].
    now rewrite Hnone. }
  intros Hsome. rewrite getVideoDetails_eq.
  destruct videoIds as [|v0 rest]; [contradiction|].
  destruct (uncached m (v0 :: rest)) as [|u0 us]; [contradiction|].
  cbv zeta.
  assert (Hserved : forall cache : gmap string Video,
             (forall i, is_Some (videoCache m !! i) -> is_Some (cache !! i)) ->
             forall i,
               In i (v0 :: rest) -> is_Some (videoCache m !! i) ->
               exists v, cache !! i = Some v
                         /\ In v (omap (fun i => cache !! i) (v0 :: rest))).
  { intros cache Hkeeps i Hin Hcached.
    destruct (Hkeeps i Hcached) as [v Hv]. exists v. split; [exact Hv|].
    now apply omap_lookup_In with i. }
  destruct (mapM _ _) as [answers|]; eexists _, _;
    (split; [reflexivity|]); (split; [reflexivity|]);
    (split; [reflexivity|]); simpl; apply Hserved; auto.
  intros i. apply merged_lookup_is_Some.
Qed.

Lemma cached_details_count_only_when_all_cached_witness :
  exists details m',
    getVideoDetails (Example.steady 3 100) (Example.ids 3) Example.fresh
    = (Normal details, m')
    /\ cachedVideoDetails (apiStats m') = 0.
Proof.
  destruct (cached_details_count_only_when_all_cached (Example.steady 3 100)
              (Example.ids 3) Example.fresh) as [_ [_ Hmixed]].
  { apply ordinary_forallb. vm_compute. reflexivity. }
  { now apply ordinary_cache_empty. }
  { apply echo_answers_ordinary;
      [|apply ordinary_forallb; vm_compute; reflexivity].
    intros b items v [= <-] Hv.
    apply in_map_iff in Hv as [name [<- Hname]]. exact Hname. }
  destruct Hmixed as [details [m' [Hcall [Hcount _]]]];
    [vm_compute; discriminate|].
  exists details, m'. split; [exact Hcall|]. exact Hcount.
Defined.

(** X10. What an answered fetch leaves in the detail cache. The ids asked
    for, the ids in the cache and the ids in the answers are ordinary object
    keys (none names a member of [Object.prototype]). When every batch
    request is answered, the cache holds under each id the last item the
    answers carried with that id, whether that id was asked for or not and
    whether it was cached or not; under every other id it holds what it
    held; and its ids are ordinary still. *)
Theorem answered_details_overwrite_the_cache (up : Upstream)
    (videoIds : list string) (m : Youtube) (answers : list (list Video)) :
  ordinary videoIds ->
  ordinary_cache m ->
  ordinary_answers up (make_batches (uncached m videoIds)) ->
  uncached m videoIds <> [] ->
  mapM (videos_list up) (make_batches (uncached m videoIds)) = Some answers ->
  (forall i,
     videoCache (snd (getVideoDetails up videoIds m)) !! i
     = match last_with_id i (concat answers) with
       | Some v => Some v
       | None => videoCache m !! i
       end)
  /\ ordinary_cache (snd (getVideoDetails up videoIds m)).
Proof.
  intros _ Hcache Hordinary Hsome Hanswers.
  assert (Hlookup : forall i,
             videoCache (snd (getVideoDetails up videoIds m)) !! i
             = match last_with_id i (concat answers) with
               | Some v => Some v
               | None => videoCache m !! i
               end).
  { intros i. rewrite getVideoDetails_eq.
    destruct videoIds as [|v0 rest]; [contradiction|].
    destruct (uncached m (v0 :: rest)) as [|u0 us]; [contradiction|].
    cbv zeta. rewrite Hanswers. simpl. apply merged_lookup. }
  split; [exact Hlookup|].
  intros i Hi. rewrite Hlookup in Hi.
  destruct (last_with_id i (concat answers)) as [v|] eqn:Hlast;
    [|now apply Hcache].
  apply last_with_id_Some in Hlast as [Hv <-].
  apply in_concat in Hv as [items [Hitems Hv]].
  apply mapM_Some_1 in Hanswers.
  destruct (Forall2_In_r _ _ _ _ Hanswers Hitems) as [b [Hb Hanswer]].
  exact (Hordinary b items v Hb Hanswer Hv).
Qed.

Lemma answered_details_overwrite_the_cache_witness :
  videoCache
    (snd (getVideoDetails (Example.steady 2 7) (Example.ids 2) Example.fresh))
  !! "v1"%string
  = Some (Example.video "v1" 7).
Proof.
  destruct (answered_details_overwrite_the_cache (Example.steady 2 7)
              (Example.ids 2) Example.fresh
              [map (fun name => Example.video name 7) (Example.ids 2)])
    as [Hlookup _].
  - apply ordinary_forallb. vm_compute. reflexivity.
  - now apply ordinary_cache_empty.
  - apply echo_answers_ordinary;
      [|apply ordinary_forallb; vm_compute; reflexivity].
    intros b items v [= <-] Hv.
    apply in_map_iff in Hv as [name [<- Hname]]. exact Hname.
  - vm_compute. discriminate.
  - vm_compute. reflexivity.
  - rewrite Hlookup. vm_compute. reflexivity.
Defined.

(** X11. A fetch is remembered. The ids asked for, the ids in the cache and
    the ids in the answers are ordinary object keys (none names a member of
    [Object.prototype]). When every batch request is answered and the
    answers carry an item for each id that was asked for, the same ids
    fetched again, from any upstream, come from the cache: the same details
    are returned, nothing is sent, and [cachedVideoDetails] goes up by the
    number of ids. *)
Theorem answered_details_are_served_from_cache (up up' : Upstream)
    (videoIds : list string) (m : Youtube) (answers : list (list Video)) :
  ordinary videoIds ->
  ordinary_cache m ->
  ordinary_answers up (make_batches (uncached m videoIds)) ->
  videoIds <> [] ->
  mapM (videos_list up) (make_batches (uncached m videoIds)) = Some answers ->
  (forall i, In i (uncached m videoIds) ->
             exists v, In v (concat answers) /\ id v = i) ->
  exists details m1 m2,
    getVideoDetails up videoIds m = (Normal details, m1)
    /\ getVideoDetails up' videoIds m1 = (Normal details, m2)
    /\ length details = length videoIds
    /\ sent m2 = sent m1
    /\ videoCache m2 = videoCache m1
    /\ cachedVideoDetails (apiStats m2)
       = cachedVideoDetails (apiStats m1) + length videoIds
    /\ videoDetailApiCalls (apiStats m2) = videoDetailApiCalls (apiStats m1).
Proof.
  intros _ _ _ Hne Hanswers Hcomplete.
  destruct (getVideoDetails_result up videoIds m)
    as [details [m1 [Hcall [Hdetails Hcache]]]].
  assert (Hall : Forall (fun i => is_Some (videoCache m1 !! i)) videoIds).
  { apply List.Forall_forall. intros i Hi.
    destruct (videoCache m !! i) as [v|] eqn:Hcached.
    - apply Hcache. eauto.
    - destruct (Hcomplete i) as [v [Hv Hid]];
        [apply uncached_In; auto|].
      assert (Hm1 : videoCache m1 = merged (concat answers) (videoCache m)).
      { pose proof (f_equal snd Hcall) as Hsnd. simpl in Hsnd.
        rewrite <- Hsnd, getVideoDetails_eq.
        destruct videoIds as [|v0 rest]; [contradiction|].
        destruct (uncached m (v0 :: rest)) as [|u0 us] eqn:Hunc.
        - exfalso. assert (In i []) as []. rewrite <- Hunc.
          apply uncached_In. auto.
        - cbv zeta. rewrite Hanswers. reflexivity. }
      rewrite Hm1.
      destruct (merged (concat answers) (videoCache m) !! i) eqn:Hlook;
        [eauto|].
      apply merged_lookup_None in Hlook as [_ Hnot].
      now destruct (Hnot v Hv). }
  exists details, m1,
    (with_apiStats (add_cachedVideoDetails (length videoIds)) m1).
  split; [exact Hcall|].
  rewrite (getVideoDetails_cached up' videoIds m1 Hne Hall), Hdetails.
  split; [reflexivity|].
  split; [apply omap_cached_length; exact Hall|]. repeat split.
Qed.

Lemma answered_details_are_served_from_cache_witness :
  exists details m1 m2,
    getVideoDetails (Example.steady 3 100) (Example.ids 3) Example.fresh
    = (Normal details, m1)
    /\ getVideoDetails Example.offline (Example.ids 3) m1
       = (Normal details, m2)
    /\ length details = 3
    /\ sent m2 = sent m1.
Proof.
  destruct (answered_details_are_served_from_cache (Example.steady 3 100)
              Example.offline (Example.ids 3) Example.fresh
              [map (fun name => Example.video name 100) (Example.ids 3)])
    as [details [m1 [m2 [H1 [H2 [Hlen [Hsent _]]]]]]].
  - apply ordinary_forallb. vm_compute. reflexivity.
  - now apply ordinary_cache_empty.
  - apply echo_answers_ordinary;
      [|apply ordinary_forallb; vm_compute; reflexivity].
    intros b items v [= <-] Hv.
    apply in_map_iff in Hv as [name [<- Hname]]. exact Hname.
  - discriminate.
  - vm_compute. reflexivity.
  - intros i Hi. exists (Example.video i 100).
    vm_compute in Hi. vm_compute.
    destruct Hi as [<-|[<-|[<-|[]]]]; auto.
  - exists details, m1, m2. auto.
Defined.

(** ** The rarity filter *)

Lemma filterRareVideos_app (K : Constants) (a b : list Video) :
  filterRareVideos K (a ++ b) = filterRareVideos K a ++ filterRareVideos K b.
Proof. unfold filterRareVideos. apply List.filter_app. Qed.

Lemma filterRareVideos_all_rare (K : Constants) (videos : list Video) :
  Forall (rare K) videos -> filterRareVideos K videos = videos.
Proof.
  unfold filterRareVideos. induction 1 as [|v l Hv _ IH]; [reflexivity|].
  simpl. apply views_lt_rare in Hv. rewrite Hv. now f_equal.
Qed.

(** X12. The rarity filter. Filtering twice is filtering once; a list in two
    parts is filtered part by part; the result is never longer than the
    list; a video whose view count did not parse ([NaN]) is never kept,
    whatever the threshold; and a lower threshold keeps no video that a
    higher one drops. *)
Theorem filterRareVideos_laws (K K' : Constants) (a b : list Video) :
  filterRareVideos K (filterRareVideos K a) = filterRareVideos K a
  /\ filterRareVideos K (a ++ b)
     = filterRareVideos K a ++ filterRareVideos K b
  /\ length (filterRareVideos K a) <= length a
  /\ (forall v, viewCount v = NaN -> ~ In v (filterRareVideos K a))
  /\ ((RARE_VIEW_THRESHOLD K <= RARE_VIEW_THRESHOLD K')%Z ->
      forall v, In v (filterRareVideos K a) -> In v (filterRareVideos K' a)).
Proof.
  split; [apply filterRareVideos_all_rare, filterRareVideos_Forall|].
  split; [apply filterRareVideos_app|].
  split; [apply sublist_length, filterRareVideos_sublist|].
  split.
  - intros v Hnan Hin. apply filterRareVideos_spec in Hin as [_ [k [Hk _]]].
    congruence.
  - intros Hle v Hin. apply filterRareVideos_spec in Hin as [Hin [k [Hk Hlt]]].
    apply filterRareVideos_spec. split; [exact Hin|].
    exists k. split; [exact Hk | lia].
Qed.

Lemma filterRareVideos_laws_witness :
  In (Example.video "a" 3)
    (filterRareVideos Scenario.lenient
       [Example.video "a" 3; Example.video "b" 50]).
Proof.
  destruct (filterRareVideos_laws Example.K Scenario.lenient
              [Example.video "a" 3; Example.video "b" 50] [])
    as [_ [_ [_ [_ Hmono]]]].
  apply Hmono; [vm_compute; discriminate | left; reflexivity].
Defined.

(** ** The page *)

(** X14. The status panel or the results. In search mode the page shows the
    results grid or the status panel, never both and never neither; the
    grid exactly when the hook is not loading and has videos. In the
    saved-videos mode it shows neither of them. *)
Theorem status_panel_or_results (p : Home) (h : Hook) :
  isSearchModeNoResults p h = in_search p && negb (hasFoundVideos p h)
  /\ (in_search p = true ->
      isSearchModeNoResults p h = negb (hasFoundVideos p h)
      /\ in_savedVideos p = false
      /\ (hasFoundVideos p h = true <->
          isLoading h = false /\ videos h <> []))
  /\ (in_search p = false ->
      hasFoundVideos p h = false
      /\ isSearchModeNoResults p h = false
      /\ in_savedVideos p = true).
Proof.
  unfold isSearchModeNoResults, hasFoundVideos, in_search, in_savedVideos.
  destruct (appMode p), (isLoading h), (videos h) as [|v vs]; simpl;
    (split; [reflexivity|]); split; intros Hmode; try discriminate Hmode;
    repeat split; try reflexivity; try discriminate;
    try (intros [? ?]; congruence); try (intros ?; congruence).
Qed.

Lemma status_panel_or_results_witness :
  isSearchModeNoResults Scenario.searching (hook Example.after_first_search)
  = negb (hasFoundVideos Scenario.searching
            (hook Example.after_first_search)).
Proof.
  destruct (status_panel_or_results Scenario.searching
              (hook Example.after_first_search)) as [_ [Hsearch _]].
  destruct (Hsearch eq_refl) as [Hpanel _]. exact Hpanel.
Defined.



(** The sessions a chain of steps goes through keep the loading flag up and
    the list of videos empty, until the step that ends the chain. *)
Lemma states_loading (K : Constants) (up : Upstream) (fuel : nat) :
  forall (w : TimeWindow) (n : nat) (s : Session) (i : nat) (si : Session),
    isLoading (hook s) = true ->
    videos (hook s) = [] ->
    states K up fuel w n s !! i = Some si ->
    (isLoading (hook si) = true /\ videos (hook si) = [])
    \/ run K up (S i) w n s = Some (Normal tt, si).
Proof.
  induction fuel as [|fuel IH]; intros w n s i si Hl Hv Hi; [discriminate|].
  cbn [states] in Hi.
  change (run K up (S i) w n s)
    with (match searchWithExpansion K up w n s with
          | (Normal (Call_searchWithExpansion w' n'), s1) =>
              run K up i w' n' s1
          | (Normal Return, s1) => Some (Normal tt, s1)
          | (Thrown, s1) => Some (Thrown, s1)
          end).
  destruct (searchWithExpansion_cases K up w n s)
    as [next [s1 [Hstep [_ [_ Hcase]]]]].
  rewrite Hstep in Hi |- *. destruct next as [w' n'|].
  - destruct Hcase as [_ [_ [_ [_ [Hl1 Hv1]]]]].
    rewrite Hl in Hl1. rewrite Hv in Hv1.
    destruct i as [|j].
    + injection Hi as <-. left. auto.
    + exact (IH w' n' s1 j si Hl1 Hv1 Hi).
  - destruct i as [|j]; [|destruct j; discriminate].
    injection Hi as <-. right. reflexivity.
Qed.

(** X16. What the page shows while a search goes on. From [startSearch] to the
    step that finds rare videos, every state of the hook has the loading
    flag up and no video: a page in search mode shows the status panel and
    no results, and keeps the search button disabled. The only other state
    is the one the session ends in. *)
Theorem searching_shows_the_status_panel (K : Constants) (up : Upstream)
    (fuel : nat) (randomDate : Qc) (s : Session) (i : nat) (si : Session)
    (p : Home) :
  in_search p = true ->
  states K up fuel (createInitialTimeWindow K randomDate) 1
    (snd (setCurrentWindow (Some (createInitialTimeWindow K randomDate))
            (snd (startSearch_reset s))))
  !! i = Some si ->
  (isSearchModeNoResults p (hook si) = true
   /\ hasFoundVideos p (hook si) = false
   /\ searchButtonDisabled (hook si) = true
   /\ videos (hook si) = [])
  \/ startSearch K up (S i) randomDate s = Some si.
Proof.
  intros Hmode Hi.
  apply states_loading in Hi as [[Hl Hv]|Hend]; [| | reflexivity | reflexivity].
  - left. unfold isSearchModeNoResults, hasFoundVideos, searchButtonDisabled.
    rewrite Hmode, Hl, Hv. auto.
  - right. unfold startSearch. now rewrite Hend.
Qed.

Lemma searching_shows_the_status_panel_witness :
  exists si,
    states Example.K Scenario.sparse 3
      (createInitialTimeWindow Example.K (Q2Qc 1000)) 1
      (snd (setCurrentWindow
              (Some (createInitialTimeWindow Example.K (Q2Qc 1000)))
              (snd (startSearch_reset Example.idle))))
    !! 1 = Some si
    /\ isSearchModeNoResults Scenario.searching (hook si) = true
    /\ searchButtonDisabled (hook si) = true.
Proof.
  destruct (states Example.K Scenario.sparse 3
              (createInitialTimeWindow Example.K (Q2Qc 1000)) 1
              (snd (setCurrentWindow
                      (Some (createInitialTimeWindow Example.K (Q2Qc 1000)))
                      (snd (startSearch_reset Example.idle))))
            !! 1) as [si|] eqn:Hi; [|vm_compute in Hi; discriminate].
  exists si. split; [reflexivity|].
  destruct (searching_shows_the_status_panel Example.K Scenario.sparse 3
              (Q2Qc 1000) Example.idle 1 si Scenario.searching eq_refl Hi)
    as [[Hpanel [_ [Hbutton _]]]|Hend]; [auto|].
  exfalso. vm_compute in Hend. discriminate.
Defined.

(** ** The saved-videos route *)

(** [ensureInitialized], case by case. *)
Lemma ensureInitialized_cases (db : Database) (r : Route) :
  ensureInitialized db r
  = if dbInitialized r then
      if testConnection_ok db (calls r)
      then (Normal tt, logged TestConnection r)
      else if initDatabase_ok db (calls r ++ [TestConnection])
           then (Normal tt, logged InitDatabase (logged TestConnection r))
           else (Thrown, logged InitDatabase (logged TestConnection r))
    else
      if initDatabase_ok db (calls r)
      then (Normal tt, set_dbInitialized true (logged InitDatabase r))
      else (Thrown, logged InitDatabase r).
Proof.
  unfold ensureInitialized, Js.try_catch, Js.bind, Js.gets, Js.modify,
    Js.throw, initDatabase, VideoModel_testConnection, db_call, succeeds,
    logged.
  destruct r as [[|] log]; simpl.
  - destruct (testConnection_ok db log); simpl; [reflexivity|].
    destruct (initDatabase_ok db (log ++ [TestConnection])); reflexivity.
  - destruct (initDatabase_ok db log); reflexivity.
Qed.

Lemma GET_eq (db : Database) (r : Route) :
  GET db r
  = match ensureInitialized db r with
    | (Normal _, r1) =>
        match getAll_rows db (calls r1) with
        | Some videos => (Normal (Json_videos videos), logged GetAll r1)
        | None =>
            (Normal (Json_error "fetching saved videos"), logged GetAll r1)
        end
    | (Thrown, r1) => (Normal (Json_error "fetching saved videos"), r1)
    end.
Proof.
  unfold GET, Js.try_catch, Js.bind at 1.
  destruct (ensureInitialized db r) as [[[]|] r1]; [|reflexivity].
  unfold Js.bind, VideoModel_getAll, db_call, Js.ret, logged.
  destruct (getAll_rows db (calls r1)); reflexivity.
Qed.

Lemma POST_eq (db : Database) (body : option Video) (r : Route) :
  POST db body r
  = match ensureInitialized db r with
    | (Normal _, r1) =>
        match body with
        | None => (Normal (Json_error "saving video"), r1)
        | Some video =>
            match exists_row db (calls r1) (id video) with
            | None =>
                (Normal (Json_error "saving video"),
                 logged (Exists (id video)) r1)
            | Some true =>
                (Normal Json_already_saved, logged (Exists (id video)) r1)
            | Some false =>
                (Normal (if save_ok db (calls r1 ++ [Exists (id video)]) video
                         then Json_saved
                         else Json_error "saving video"),
                 logged (Save video) (logged (Exists (id video)) r1))
            end
        end
    | (Thrown, r1) => (Normal (Json_error "saving video"), r1)
    end.
Proof.
  unfold POST, Js.try_catch, Js.bind at 1.
  destruct (ensureInitialized db r) as [[[]|] r1]; [|reflexivity].
  destruct body as [video|]; [|reflexivity].
  unfold Js.bind, request_json, VideoModel_exists, VideoModel_save, db_call,
    Js.ret, succeeds, logged.
  destruct (exists_row db (calls r1) (id video)) as [[|]|]; simpl;
    try reflexivity.
  destruct (save_ok db (calls r1 ++ [Exists (id video)]) video); reflexivity.
Qed.

Lemma count_init_app (l1 l2 : list DbCall) :
  count_init (l1 ++ l2) = count_init l1 + count_init l2.
Proof. unfold count_init. now rewrite List.filter_app, length_app. Qed.

Lemma save_calls_app (l1 l2 : list DbCall) :
  save_calls (l1 ++ l2) = save_calls l1 ++ save_calls l2.
Proof. apply omap_app. Qed.

(** What [ensureInitialized] adds to the log, and what it does to the flag. *)
Lemma ensureInitialized_summary (db : Database) (r : Route) :
  exists c r1 new,
    ensureInitialized db r = (c, r1)
    /\ calls r1 = calls r ++ new
    /\ save_calls new = []
    /\ (dbInitialized r = true -> dbInitialized r1 = true)
    /\ (dbInitialized r = false ->
        new = [InitDatabase]
        /\ dbInitialized r1 = initDatabase_ok db (calls r)
        /\ (c = Thrown <-> initDatabase_ok db (calls r) = false))
    /\ (dbInitialized r = true ->
        (testConnection_ok db (calls r) = true
         /\ new = [TestConnection] /\ c = Normal tt)
        \/ (testConnection_ok db (calls r) = false
            /\ new = [TestConnection; InitDatabase])).
Proof.
  rewrite ensureInitialized_cases.
  destruct (dbInitialized r) eqn:Hflag.
  - destruct (testConnection_ok db (calls r)) eqn:Htest.
    + exists (Normal tt), (logged TestConnection r), [TestConnection].
      simpl. repeat split; auto; discriminate.
    + exists (if initDatabase_ok db (calls r ++ [TestConnection])
              then Normal tt else Thrown),
        (logged InitDatabase (logged TestConnection r)),
        [TestConnection; InitDatabase].
      split; [destruct (initDatabase_ok db _); reflexivity|].
      simpl. rewrite <- app_assoc.
      repeat split; auto; discriminate.
  - destruct (initDatabase_ok db (calls r)) eqn:Hinit.
    + exists (Normal tt), (set_dbInitialized true (logged InitDatabase r)),
        [InitDatabase].
      simpl. repeat split; auto; discriminate.
    + exists Thrown, (logged InitDatabase r), [InitDatabase].
      simpl. repeat split; auto; discriminate.
Qed.

(** Every request is answered; what it adds to the log and does to the flag. *)
Lemma handle_answers (db : Database) (req : HttpRequest) (r : Route) :
  exists a r1 new,
    handle db req r = (Normal a, r1)
    /\ calls r1 = calls r ++ new
    /\ (dbInitialized r = true -> dbInitialized r1 = true)
    /\ (dbInitialized r = false ->
        dbInitialized r1 = initDatabase_ok db (calls r)
        /\ count_init new = 1
        /\ hd_error new = Some InitDatabase)
    /\ (dbInitialized r = true ->
        hd_error new = Some TestConnection
        /\ (testConnection_ok db (calls r) = true -> count_init new = 0)).
Proof.
  destruct (ensureInitialized_summary db r)
    as [c [r1 [new [Hens [Hcalls [_ [Hmono [Hcold Hwarm]]]]]]]].
  assert (Hshape : forall (rest : list DbCall) (r2 : Route),
             calls r2 = calls r1 ++ rest ->
             dbInitialized r2 = dbInitialized r1 ->
             count_init rest = 0 ->
             calls r2 = calls r ++ (new ++ rest)
             /\ (dbInitialized r = true -> dbInitialized r2 = true)
             /\ (dbInitialized r = false ->
                 dbInitialized r2 = initDatabase_ok db (calls r)
                 /\ count_init (new ++ rest) = 1
                 /\ hd_error (new ++ rest) = Some InitDatabase)
             /\ (dbInitialized r = true ->
                 hd_error (new ++ rest) = Some TestConnection
                 /\ (testConnection_ok db (calls r) = true ->
                     count_init (new ++ rest) = 0))).
  { intros rest r2 Hr2 Hflag Hzero.
    rewrite Hr2, Hcalls, <- app_assoc, Hflag, count_init_app, Hzero.
    split; [reflexivity|]. split; [exact Hmono|]. split.
    - intros Hfalse. destruct (Hcold Hfalse) as [-> [-> _]]. auto.
    - intros Htrue.
      destruct (Hwarm Htrue) as [[Htest [-> _]]|[Htest ->]];
        (split; [reflexivity|]); intros Hok; [reflexivity | congruence]. }
  destruct req as [|body]; cbn [handle].
  - rewrite GET_eq, Hens. destruct c as [[]|].
    + destruct (getAll_rows db (calls r1));
        eexists _, (logged GetAll r1), (new ++ [GetAll]);
        (split; [reflexivity|]); now apply Hshape.
    + eexists _, r1, (new ++ []). split; [reflexivity|].
      apply Hshape; auto. now rewrite app_nil_r.
  - rewrite POST_eq, Hens. destruct c as [[]|].
    + destruct body as [video|].
      * destruct (exists_row db (calls r1) (id video)) as [[|]|].
        -- eexists _, _, (new ++ [Exists (id video)]).
           split; [reflexivity|]. now apply Hshape.
        -- eexists _, _, (new ++ [Exists (id video); Save video]).
           split; [reflexivity|]. apply Hshape; auto.
           simpl. now rewrite <- app_assoc.
        -- eexists _, _, (new ++ [Exists (id video)]).
           split; [reflexivity|]. now apply Hshape.
      * eexists _, r1, (new ++ []). split; [reflexivity|].
        apply Hshape; auto. now rewrite app_nil_r.
    + eexists _, r1, (new ++ []). split; [reflexivity|].
      apply Hshape; auto. now rewrite app_nil_r.
Qed.

Lemma serve_answers (db : Database) (reqs : list HttpRequest) :
  forall r,
    length (fst (serve db reqs r)) = length reqs
    /\ Forall (fun c => exists a, c = Normal a) (fst (serve db reqs r))
    /\ (dbInitialized r = true -> dbInitialized (snd (serve db reqs r)) = true)
    /\ (earned db r -> earned db (snd (serve db reqs r))).
Proof.
  induction reqs as [|req rest IH]; intros r.
  - simpl. repeat split; auto.
  - cbn [serve].
    destruct (handle_answers db req r)
      as [a [r1 [new [Hreq [Hcalls [Hmono [Hcold Hwarm]]]]]]].
    rewrite Hreq. destruct (IH r1) as [Hlen [Hall [Hmono1 Hearned1]]].
    destruct (serve db rest r1) as [answers r2]. simpl in *.
    split; [now f_equal|]. split; [constructor; eauto|].
    split; [auto|]. intros Hearned. apply Hearned1.
    intros Hflag1. destruct (dbInitialized r) eqn:Hflag.
    + destruct (Hearned Hflag) as [pre [post [Hlog Hok]]].
      exists pre, (post ++ new). split; [|exact Hok].
      rewrite Hcalls, Hlog, <- app_assoc. reflexivity.
    + destruct (Hcold eq_refl) as [Hinit [_ Hhead]].
      destruct new as [|c new']; [discriminate|]. injection Hhead as ->.
      exists (calls r), new'. split; [exact Hcalls|]. now rewrite <- Hinit.
Qed.

(** X17. The route always answers. A request to the route never ends in an
    exception, whatever the database does and whatever the body is: [GET]
    answers the rows [VideoModel.getAll] returned or the error answer for
    "fetching saved videos", and hands no video to the database; [POST]
    answers "saved", "already saved" or the error answer for "saving
    video". A process answers every request of a sequence. *)
Theorem route_always_answers (db : Database) (req : HttpRequest) (r : Route)
    (reqs : list HttpRequest) :
  (exists a r',
      handle db req r = (Normal a, r')
      /\ match req with
         | Get =>
             ((exists videos log,
                  getAll_rows db log = Some videos /\ a = Json_videos videos)
              \/ a = Json_error "fetching saved videos")
             /\ save_calls (calls r') = save_calls (calls r)
         | Post _ =>
             a = Json_saved \/ a = Json_already_saved
             \/ a = Json_error "saving video"
         end)
  /\ length (fst (serve db reqs r)) = length reqs
  /\ Forall (fun c => exists a, c = Normal a) (fst (serve db reqs r)).
Proof.
  split; [|destruct (serve_answers db reqs r) as [? [? _]]; auto].
  destruct (ensureInitialized_summary db r)
    as [c [r1 [new [Hens [Hcalls [Hnone _]]]]]].
  destruct req as [|body]; cbn [handle].
  - rewrite GET_eq, Hens. destruct c as [[]|].
    + destruct (getAll_rows db (calls r1)) as [vs|] eqn:Hrows;
        eexists _, _; (split; [reflexivity|]); simpl;
        rewrite Hcalls, !save_calls_app, Hnone, !app_nil_r;
        (split; [|reflexivity]); [left | right]; eauto.
    + eexists _, _. split; [reflexivity|].
      rewrite Hcalls, save_calls_app, Hnone, app_nil_r. auto.
  - rewrite POST_eq, Hens. destruct c as [[]|]; [|eauto 6].
    destruct body as [video|]; [|eauto 6].
    destruct (exists_row db (calls r1) (id video)) as [[|]|]; [eauto 6| |eauto 6].
    destruct (save_ok db _ video); eauto 6.
Qed.

Lemma route_always_answers_witness :
  length (fst (serve Scenario.down [Get; Post None] Scenario.cold)) = 2
  /\ Forall (fun c => exists a, c = Normal a)
       (fst (serve Scenario.down [Get; Post None] Scenario.cold)).
Proof.
  destruct (route_always_answers Scenario.down Get Scenario.cold
              [Get; Post None]) as [_ [Hlen Hall]].
  split; [exact Hlen | exact Hall].
Defined.

(** X18. [POST] asks before it saves. A [POST] hands a video to
    [VideoModel.save] only right after [VideoModel.exists] answered that its
    id is not there, and at most once; when the id is there it answers
    "already saved" and saves nothing; it answers "saved" only when the save
    was accepted. A body that cannot be read is answered with the error for
    "saving video" after the database was initialised, and nothing is asked
    of [VideoModel]. *)
Theorem POST_asks_before_it_saves (db : Database) (body : option Video)
    (r : Route) :
  exists a r',
    POST db body r = (Normal a, r')
    /\ (save_calls (calls r') = save_calls (calls r)
        \/ exists video pre,
             body = Some video
             /\ calls r' = pre ++ [Exists (id video); Save video]
             /\ exists_row db pre (id video) = Some false
             /\ save_calls (calls r') = save_calls (calls r) ++ [video])
    /\ (a = Json_already_saved ->
        save_calls (calls r') = save_calls (calls r)
        /\ exists video pre,
             body = Some video
             /\ calls r' = pre ++ [Exists (id video)]
             /\ exists_row db pre (id video) = Some true)
    /\ (a = Json_saved ->
        exists video pre,
          body = Some video
          /\ calls r' = pre ++ [Exists (id video); Save video]
          /\ save_ok db (pre ++ [Exists (id video)]) video = true)
    /\ (body = None ->
        a = Json_error "saving video"
        /\ exists new,
             calls r' = calls r ++ new
             /\ Forall (fun c => c = InitDatabase \/ c = TestConnection) new).
Proof.
  destruct (ensureInitialized_summary db r)
    as [c [r1 [new [Hens [Hcalls [Hnone [_ [Hcold Hwarm]]]]]]]].
  assert (Hnew : Forall (fun c => c = InitDatabase \/ c = TestConnection) new).
  { destruct (dbInitialized r).
    - destruct (Hwarm eq_refl) as [[_ [-> _]]|[_ ->]];
        repeat (constructor; [auto|]); constructor.
    - destruct (Hcold eq_refl) as [-> _].
      repeat (constructor; [auto|]); constructor. }
  assert (Hsame : save_calls (calls r1) = save_calls (calls r))
    by (now rewrite Hcalls, save_calls_app, Hnone, app_nil_r).
  rewrite POST_eq, Hens. destruct c as [[]|].
  - destruct body as [video|].
    + destruct (exists_row db (calls r1) (id video)) as [[|]|] eqn:Hexists.
      * eexists _, _. split; [reflexivity|]. simpl.
        rewrite save_calls_app, Hsame. simpl. rewrite app_nil_r.
        split; [auto|]. split; [|split; [discriminate|discriminate]].
        intros _. split; [reflexivity|]. exists video, (calls r1). auto.
      * eexists _, _. split; [reflexivity|]. simpl.
        rewrite <- app_assoc. simpl.
        rewrite save_calls_app, Hsame. simpl.
        split; [right; exists video, (calls r1); auto|].
        split; [destruct (save_ok db _ video); discriminate|].
        split; [|discriminate].
        intros Hsaved. exists video, (calls r1).
        destruct (save_ok db _ video); [auto | discriminate].
      * eexists _, _. split; [reflexivity|]. simpl.
        rewrite save_calls_app, Hsame. simpl. rewrite app_nil_r.
        split; [auto|]. repeat split; discriminate.
    + eexists _, _. split; [reflexivity|].
      split; [auto|]. split; [discriminate|]. split; [discriminate|].
      intros _. split; [reflexivity|]. eauto.
  - eexists _, _. split; [reflexivity|].
    split; [auto|]. split; [discriminate|]. split; [discriminate|].
    intros _. split; [reflexivity|]. eauto.
Qed.

Lemma POST_asks_before_it_saves_witness :
  exists r1 r2,
    POST Scenario.store (Some (Example.video "a" 1)) Scenario.cold
    = (Normal Json_saved, r1)
    /\ POST Scenario.store (Some (Example.video "a" 1)) r1
       = (Normal Json_already_saved, r2)
    /\ save_calls (calls r2) = save_calls (calls r1).
Proof.
  destruct (POST_asks_before_it_saves Scenario.store
              (Some (Example.video "a" 1))
              (snd (POST Scenario.store (Some (Example.video "a" 1))
                      Scenario.cold)))
    as [a [r2 [Hpost [_ [Hdup _]]]]].
  exists (snd (POST Scenario.store (Some (Example.video "a" 1))
                 Scenario.cold)), r2.
  split; [vm_compute; reflexivity|].
  assert (Ha : a = Json_already_saved).
  { assert (fst (POST Scenario.store (Some (Example.video "a" 1))
                   (snd (POST Scenario.store (Some (Example.video "a" 1))
                           Scenario.cold)))
            = Normal a) as Hfst by now rewrite Hpost.
    vm_compute in Hfst. now injection Hfst as <-. }
  subst a. split; [exact Hpost|]. now destruct (Hdup eq_refl).
Defined.

(** X19. The initialisation flag. [dbInitialized], once up, stays up through
    every request; it is up only if some call of [initDatabase] was
    answered. A request that finds it down calls [initDatabase] first; when
    that call is rejected the request is answered with the error of its
    handler, nothing else is asked of the database and the flag stays down,
    so that the next request calls [initDatabase] again. *)
Theorem dbInitialized_is_earned (db : Database) (reqs : list HttpRequest)
    (req : HttpRequest) (r : Route) :
  (dbInitialized r = true -> dbInitialized (snd (serve db reqs r)) = true)
  /\ (earned db r -> earned db (snd (serve db reqs r)))
  /\ (dbInitialized r = false ->
      initDatabase_ok db (calls r) = false ->
      handle db req r
      = (Normal (Json_error (error_context req)), logged InitDatabase r)
      /\ dbInitialized (logged InitDatabase r) = false)
  /\ (dbInitialized r = false ->
      exists a r' rest,
        handle db req r = (Normal a, r')
        /\ calls r' = calls r ++ InitDatabase :: rest
        /\ dbInitialized r' = initDatabase_ok db (calls r)).
Proof.
  destruct (serve_answers db reqs r) as [_ [_ [Hmono Hearned]]].
  split; [exact Hmono|]. split; [exact Hearned|]. split.
  - intros Hflag Hfail. split; [|exact Hflag].
    destruct req as [|body]; cbn [handle error_context];
      rewrite ?GET_eq, ?POST_eq, ensureInitialized_cases, Hflag, Hfail;
      reflexivity.
  - intros Hflag.
    destruct (handle_answers db req r)
      as [a [r1 [new [Hreq [Hcalls [_ [Hcold _]]]]]]].
    destruct (Hcold Hflag) as [Hinit [_ Hhead]].
    destruct new as [|c rest]; [discriminate|]. injection Hhead as ->.
    exists a, r1, rest. auto.
Qed.

Lemma dbInitialized_is_earned_witness :
  exists r1,
    handle Scenario.waking Get Scenario.cold
    = (Normal (Json_error "fetching saved videos"), r1)
    /\ dbInitialized r1 = false
    /\ dbInitialized (snd (serve Scenario.waking [Get; Get] r1)) = true.
Proof.
  destruct (dbInitialized_is_earned Scenario.waking [] Get Scenario.cold)
    as [_ [_ [Hfail _]]].
  destruct (Hfail eq_refl eq_refl) as [Hanswer Hflag].
  exists (logged InitDatabase Scenario.cold).
  split; [exact Hanswer|]. split; [exact Hflag|]. reflexivity.
Defined.

Lemma serve_healthy (db : Database) (reqs : list HttpRequest) :
  (forall log, initDatabase_ok db log = true) ->
  (forall log, testConnection_ok db log = true) ->
  forall r,
    exists new,
      calls (snd (serve db reqs r)) = calls r ++ new
      /\ count_init new
         = (if dbInitialized r then 0
            else match reqs with [] => 0 | _ :: _ => 1 end)
      /\ (reqs <> [] -> dbInitialized (snd (serve db reqs r)) = true).
Proof.
  intros Hinit Htest. induction reqs as [|req rest IH]; intros r.
  - exists []. simpl. rewrite app_nil_r.
    split; [reflexivity|]. split; [now destruct (dbInitialized r)|].
    intros []. reflexivity.
  - cbn [serve].
    destruct (handle_answers db req r)
      as [a [r1 [new [Hreq [Hcalls [Hmono [Hcold Hwarm]]]]]]].
    rewrite Hreq. destruct (IH r1) as [new1 [Hcalls1 [Hcount1 _]]].
    destruct (serve_answers db rest r1) as [_ [_ [Hmono1 _]]].
    destruct (serve db rest r1) as [answers r2]. simpl in *.
    assert (Hup : dbInitialized r1 = true).
    { destruct (dbInitialized r); [auto|].
      destruct (Hcold eq_refl) as [-> _]. apply Hinit. }
    exists (new ++ new1). rewrite Hcalls1, Hcalls, <- app_assoc.
    split; [reflexivity|]. split; [|auto].
    rewrite count_init_app, Hcount1, Hup.
    destruct (dbInitialized r).
    + destruct (Hwarm eq_refl) as [_ Hzero]. rewrite (Hzero (Htest _)). lia.
    + destruct (Hcold eq_refl) as [_ [-> _]]. lia.
Qed.

(** X20. One initialisation per process. With a database that accepts
    [initDatabase] and answers the connection test, a process calls
    [initDatabase] once, in its first request, however many requests it
    serves afterwards; a process whose flag is already up never calls it. *)
Theorem initDatabase_runs_once (db : Database) (reqs : list HttpRequest)
    (r : Route) :
  (forall log, initDatabase_ok db log = true) ->
  (forall log, testConnection_ok db log = true) ->
  reqs <> [] ->
  exists new,
    calls (snd (serve db reqs r)) = calls r ++ new
    /\ count_init new = (if dbInitialized r then 0 else 1)
    /\ dbInitialized (snd (serve db reqs r)) = true.
Proof.
  intros Hinit Htest Hne.
  destruct (serve_healthy db reqs Hinit Htest r) as [new [Hcalls [Hcount Hup]]].
  exists new. split; [exact Hcalls|]. split; [|auto].
  rewrite Hcount. destruct reqs; [contradiction | reflexivity].
Qed.

Lemma initDatabase_runs_once_witness :
  exists new,
    calls (snd (serve Scenario.store
                  [Post (Some (Example.video "a" 1)); Get; Get]
                  Scenario.cold)) = new
    /\ count_init new = 1.
Proof.
  destruct (initDatabase_runs_once Scenario.store
              [Post (Some (Example.video "a" 1)); Get; Get] Scenario.cold)
    as [new [Hcalls [Hcount _]]]; [reflexivity | reflexivity | discriminate|].
  exists new. split; [exact Hcalls | exact Hcount].
Defined.
